(** * The training driver [dev/train.py] of ALPHA-g-Experiment/reco

    A shallow embedding of the script and the properties of its
    bookkeeping: the output-directory guard, the configuration copy, the
    CSV log, the epoch loop and the checkpoint-on-improvement policy.

    The script is a sequence of calls on the file system and on the
    machine-learning components of the repository ([PointCloudDataset],
    [Regressor], [CustomLoss], [build_optimizer], [train_one_epoch],
    [test_one_epoch]) and of PyTorch.  The components are not part of the
    script: they are the fields of the record [components], and every
    statement below holds for all of them. *)

From Stdlib Require Import ZArith List String Ascii Strings.Byte Bool Lia SpecFloat.
Import ListNotations.
Open Scope Z_scope.
Open Scope string_scope.
Open Scope list_scope.

Set Implicit Arguments.
Set Warnings "-register-all".

(** ** Python floats

    [float("inf")] and the losses are IEEE 754 binary64 values; the only
    operation the script applies to them is [<].  [spec_float] is the
    Standard Library's specification of those values and [SFltb] of
    their comparison: a NaN is neither below nor above anything. *)

Definition float := spec_float.
Definition float_inf : float := S754_infinity false.
Definition float_nan : float := S754_nan.
Definition float_one : float := S754_finite false 4503599627370496 (-52).
Definition float_two : float := S754_finite false 4503599627370496 (-51).
Definition float_lt (x y : float) : bool := SFltb x y.
Definition float_le (x y : float) : bool := SFleb x y.
Definition isnan (x : float) : bool :=
  match x with S754_nan => true | _ => false end.

(** ** Paths and the file system

    A path is the list of its components below the working directory, so
    [output_dir / "model.pt"] appends one component.  The file system
    maps a path to what is there: nothing, a directory, or a regular file
    with its bytes.  The empty path is the working directory itself.
    Symbolic links and special files (FIFOs, sockets, devices) are not
    in the model: what is proved of a path is proved for paths at which
    there is nothing, a directory or a regular file. *)

Definition path := list string.

Definition joinpath (d : path) (name : string) : path := d ++ [name].

Fixpoint path_eqb (p q : path) : bool :=
  match p, q with
  | [], [] => true
  | a :: p', b :: q' => String.eqb a b && path_eqb p' q'
  | _, _ => false
  end.

Inductive node :=
| Dir
| File (content : list byte).

Definition filesystem := path -> option node.

Definition node_at (fs : filesystem) (p : path) : option node :=
  match p with
  | [] => Some Dir
  | _ => fs p
  end.

Definition fs_set (fs : filesystem) (p : path) (n : node) : filesystem :=
  fun q => if path_eqb q p then Some n else fs q.

Definition is_file (o : option node) : bool :=
  match o with Some (File _) => true | _ => false end.

Definition is_some {A} (o : option A) : bool :=
  match o with Some _ => true | None => false end.

(** The non-empty prefixes of a path, shortest first. *)
Fixpoint prefixes (p : path) : list path :=
  match p with
  | [] => []
  | c :: r => [c] :: map (cons c) (prefixes r)
  end.

Definition parent (p : path) : path := removelast p.

(** Some proper ancestor of [p] is a regular file: the system call on
    [p] fails with ENOTDIR. *)
Definition blocked (fs : filesystem) (p : path) : bool :=
  existsb (fun q => is_file (node_at fs q)) (prefixes (parent p)).

(** ** Exceptions the script can end with *)

Inductive exn :=
| FileExistsError
| FileNotFoundError
| NotADirectoryError
| IsADirectoryError
| SameFileError
| TOMLDecodeError
| UnicodeDecodeError
| RecursionError
| KeyError (key : string)
| TypeError
| RuntimeError.

(** [Path.exists()]: false when the path cannot be resolved. *)
Definition path_exists (fs : filesystem) (p : path) : bool :=
  negb (blocked fs p) && is_some (node_at fs p).

(** [Path.mkdir(parents=True, exist_ok=True)]: an existing directory is
    left as it is, a regular file in the way is an error, and otherwise
    the missing ancestors and the directory are created. *)
Definition mkdir_missing (fs : filesystem) (q : path) : filesystem :=
  match node_at fs q with
  | None => fs_set fs q Dir
  | Some _ => fs
  end.

Definition mkdir_parents_exist_ok (fs : filesystem) (p : path)
  : exn + filesystem :=
  if blocked fs p then inl NotADirectoryError
  else match node_at fs p with
       | Some (File _) => inl FileExistsError
       | Some Dir => inr fs
       | None => inr (fold_left mkdir_missing (prefixes p) fs)
       end.

(** [mkdir] only turns missing paths into directories. *)
Definition grows (fs fs' : filesystem) : Prop :=
  forall r, node_at fs' r = node_at fs r \/
            (node_at fs r = None /\ node_at fs' r = Some Dir).

(** Nothing that was in [fs] is missing from [fs']. *)
Definition keeps (fs fs' : filesystem) : Prop :=
  forall q, node_at fs q <> None -> node_at fs' q <> None.

(** The output directory is there and can be resolved. *)
Definition ready (fs : filesystem) (out : path) : Prop :=
  blocked fs out = false /\ node_at fs out = Some Dir.

(** [open(p, "rb").read()] *)
Definition read_file (fs : filesystem) (p : path) : exn + list byte :=
  if blocked fs p then inl NotADirectoryError
  else match node_at fs p with
       | Some (File c) => inr c
       | Some Dir => inl IsADirectoryError
       | None => inl FileNotFoundError
       end.

(** What [open(p, mode)] checks for the writing modes ["w"] and ["a"]. *)
Definition open_for_writing (fs : filesystem) (p : path) : option exn :=
  if blocked fs p then Some NotADirectoryError
  else match node_at fs (parent p) with
       | None => Some FileNotFoundError
       | Some (File _) => Some NotADirectoryError
       | Some Dir =>
           match node_at fs p with
           | Some Dir => Some IsADirectoryError
           | _ => None
           end
       end.

(** Mode ["w"]: the file is created or truncated, then written. *)
Definition write_file (fs : filesystem) (p : path) (data : list byte)
  : exn + filesystem :=
  match open_for_writing fs p with
  | Some e => inl e
  | None => inr (fs_set fs p (File data))
  end.

(** Mode ["a"]: the file is created if missing, and written at its end. *)
Definition append_file (fs : filesystem) (p : path) (data : list byte)
  : exn + filesystem :=
  match open_for_writing fs p with
  | Some e => inl e
  | None =>
      match node_at fs p with
      | Some (File old) => inr (fs_set fs p (File (old ++ data)))
      | _ => inr (fs_set fs p (File data))
      end
  end.

(** [ScriptModule.save(p)]: the serialized module replaces the file; the
    writer of PyTorch reports a path it cannot open as a [RuntimeError]. *)
Definition jit_save (fs : filesystem) (p : path) (data : list byte)
  : exn + filesystem :=
  match write_file fs p data with
  | inl _ => inl RuntimeError
  | inr fs' => inr fs'
  end.

(** [shutil.copyfile(src, dst)] *)
Definition copyfile (fs : filesystem) (src dst : path) : exn + filesystem :=
  if path_eqb src dst && path_exists fs src then inl SameFileError
  else match read_file fs src with
       | inl e => inl e
       | inr c => write_file fs dst c
       end.

(** ** The configuration

    [tomllib.load] returns nested dictionaries of TOML values. *)

Inductive toml :=
| TStr (s : string)
| TInt (z : Z)
| TFloat (f : float)
| TBool (b : bool)
| TDate (s : string)
| TArr (items : list toml)
| TTable (entries : list (string * toml)).

Fixpoint assoc (k : string) (entries : list (string * toml)) : option toml :=
  match entries with
  | [] => None
  | (k', v) :: rest => if String.eqb k k' then Some v else assoc k rest
  end.

(** [v[k]] for a string key [k]. *)
Definition subscript (v : toml) (k : string) : exn + toml :=
  match v with
  | TTable entries =>
      match assoc k entries with
      | Some x => inr x
      | None => inl (KeyError k)
      end
  | _ => inl TypeError
  end.

(** What [range(v)] accepts: an [int], and a [bool], which is one. *)
Definition as_index (v : toml) : exn + Z :=
  match v with
  | TInt z => inr z
  | TBool b => inr (if b then 1 else 0)
  | _ => inl TypeError
  end.

(** [range(n)] *)
Definition range (n : Z) : list nat := seq 0 (Z.to_nat n).

(** ** CSV cells *)

Inductive cell :=
| CStr (s : string)
| CInt (z : Z)
| CFloat (f : float).

Definition header : list cell :=
  [CStr "epoch"; CStr "training_loss"; CStr "validation_loss"].

Definition epoch_row (i : nat) (train_loss validation_loss : float)
  : list cell :=
  [CInt (Z.of_nat i); CFloat train_loss; CFloat validation_loss].

(** ** The components the script calls

    [World] is the state the components keep between calls (the model's
    parameters, the optimizer's state, the random generator of the
    shuffling loader); the other types are the objects the script holds.
    The components return normally and act on [World] only: they do not
    write under the output directory.  A run in which a call of a
    component raises ends at that call; of such a run the model has the
    part before the call, so that what is stated of a run that returns,
    or of every point a run reaches, does not depend on it. *)

Inductive device := Cuda | Cpu.

(** How [tomllib.load] fails: the bytes are not UTF-8 ([load] decodes
    them before it parses), the text is not TOML, or it is nested deeper
    than the recursion of the parser goes. *)
Inductive load_failure := NotUTF8 | NotTOML | TooDeep.

Definition load_exn (f : load_failure) : exn :=
  match f with
  | NotUTF8 => UnicodeDecodeError
  | NotTOML => TOMLDecodeError
  | TooDeep => RecursionError
  end.

Record components := {
  World : Type;
  Dataset : Type;
  Model : Type;
  LossFn : Type;
  Optimizer : Type;
  Loader : Type;
  Scripted : Type;
  tomllib_load : list byte -> option toml;
  tomllib_failure : list byte -> load_failure;
  PointCloudDataset : string -> toml -> World -> Dataset * World;
  Regressor : toml -> World -> Model * World;
  CustomLoss : toml -> World -> LossFn * World;
  build_optimizer : Model -> toml -> World -> Optimizer * World;
  cuda_is_available : World -> bool;
  model_to : Model -> device -> World -> World;
  DataLoader : Dataset -> toml -> bool -> World -> Loader * World;
  train_one_epoch :
    Loader -> Model -> LossFn -> Optimizer -> device -> World -> float * World;
  test_one_epoch :
    Loader -> Model -> LossFn -> device -> World -> float * World;
  jit_script : Model -> World -> Scripted;
  save_bytes : Scripted -> list byte;
  csv_row : list cell -> list byte
}.

(** ** Calls, in the order the script issues them

    A run keeps the list of the calls it has issued.  The calls of the
    two passes are listed with the loss they returned, and the calls
    inside the loop with the index of the iteration. *)

Inductive event :=
| ev_mkdir (p : path)
| ev_load_config (p : path)
| ev_copyfile (src dst : path)
| ev_dataset (data : string) (section : toml)
| ev_regressor (section : toml)
| ev_loss (section : toml)
| ev_optimizer (section : toml)
| ev_to_device (d : device)
| ev_dataloader (batch_size : toml) (shuffle : bool)
| ev_write (p : path) (row : list cell)
| ev_append (p : path) (row : list cell)
| ev_train (epoch : nat) (loss : float)
| ev_test (epoch : nat) (loss : float)
| ev_script (epoch : nat)
| ev_save (epoch : nat) (p : path).

(** ** Command line *)

Record args := {
  train_data : string;
  val_data : string;
  config : path;
  output_dir : option path;
  force : bool
}.

Inductive outcome (A : Type) :=
| Returned (a : A)
| Raised (e : exn).
Arguments Raised {A} e.

Section Script.

Context {C : components}.

(** ** The state of a run and its monad

    An exception ends the run and keeps the state reached so far: the
    script has no handler. *)

Record state := {
  st_fs : filesystem;
  st_world : World C;
  st_trace : list event
}.

Definition M (A : Type) : Type := state -> outcome A * state.

Definition ret {A} (a : A) : M A := fun s => (Returned a, s).

Definition raise {A} (e : exn) : M A := fun s => (Raised e, s).

Definition bind {A B} (m : M A) (k : A -> M B) : M B :=
  fun s =>
    match m s with
    | (Returned a, s') => k a s'
    | (Raised e, s') => (Raised e, s')
    end.

Notation "x <- m ;; k" := (bind m (fun x => k))
  (at level 100, m at next level, right associativity).
Notation "m ;; k" := (bind m (fun _ => k))
  (at level 100, right associativity).

Definition record (e : event) : M unit :=
  fun s => (Returned tt,
            {| st_fs := st_fs s; st_world := st_world s;
               st_trace := st_trace s ++ [e] |}).

Definition lift {A} (r : exn + A) : M A :=
  match r with
  | inl e => raise e
  | inr a => ret a
  end.

(** A call of a component. *)
Definition call {A} (f : World C -> A * World C) : M A :=
  fun s =>
    let (a, w) := f (st_world s) in
    (Returned a,
     {| st_fs := st_fs s; st_world := w; st_trace := st_trace s |}).

Definition ask {A} (f : World C -> A) : M A :=
  fun s => (Returned (f (st_world s)), s).

Definition fs_read {A} (f : filesystem -> exn + A) : M A :=
  fun s => lift (f (st_fs s)) s.

Definition fs_write (f : filesystem -> exn + filesystem) : M unit :=
  fun s =>
    match f (st_fs s) with
    | inl e => (Raised e, s)
    | inr fs' =>
        (Returned tt,
         {| st_fs := fs'; st_world := st_world s; st_trace := st_trace s |})
    end.

(** ** The script *)

(** What the epoch loop uses of the objects built before it. *)
Record run_env := {
  env_output_dir : path;
  env_num_epochs : toml;
  env_model : Model C;
  env_loss_fn : LossFn C;
  env_optimizer : Optimizer C;
  env_device : device;
  env_train_dataloader : Loader C;
  env_validation_dataloader : Loader C
}.

Definition training_log (out : path) : path := joinpath out "training_log.csv".
Definition config_copy (out : path) : path := joinpath out "config.toml".
Definition model_pt (out : path) : path := joinpath out "model.pt".

(** Lines 30-32: the output directory, by default named after the clock. *)
Definition output_path (a : args) (now : string) : path :=
  match output_dir a with
  | Some p => p
  | None => [now]
  end.

(** Lines 34-61. *)
Definition setup (a : args) (now : string) : M run_env :=
  let out := output_path a now in
  ex <- fs_read (fun fs => inr (path_exists fs out)) ;;
  (if ex && negb (force a) then raise FileExistsError else ret tt) ;;
  record (ev_mkdir out) ;;
  fs_write (fun fs => mkdir_parents_exist_ok fs out) ;;
  record (ev_load_config (config a)) ;;
  raw <- fs_read (fun fs => read_file fs (config a)) ;;
  cfg <- lift (match tomllib_load C raw with
               | Some t => inr t
               | None => inl (load_exn (tomllib_failure C raw))
               end) ;;
  record (ev_copyfile (config a) (config_copy out)) ;;
  fs_write (fun fs => copyfile fs (config a) (config_copy out)) ;;
  training <- lift (subscript cfg "training") ;;
  batch_size <- lift (subscript training "batch_size") ;;
  training <- lift (subscript cfg "training") ;;
  num_epochs <- lift (subscript training "num_epochs") ;;
  data <- lift (subscript cfg "data") ;;
  record (ev_dataset (train_data a) data) ;;
  train_dataset <- call (PointCloudDataset C (train_data a) data) ;;
  data <- lift (subscript cfg "data") ;;
  record (ev_dataset (val_data a) data) ;;
  validation_dataset <- call (PointCloudDataset C (val_data a) data) ;;
  section <- lift (subscript cfg "model") ;;
  record (ev_regressor section) ;;
  model <- call (Regressor C section) ;;
  training <- lift (subscript cfg "training") ;;
  section <- lift (subscript training "loss") ;;
  record (ev_loss section) ;;
  loss_fn <- call (CustomLoss C section) ;;
  training <- lift (subscript cfg "training") ;;
  section <- lift (subscript training "optimizer") ;;
  record (ev_optimizer section) ;;
  optimizer <- call (build_optimizer C model section) ;;
  cuda <- ask (cuda_is_available C) ;;
  let dev := if cuda then Cuda else Cpu in
  record (ev_to_device dev) ;;
  call (fun w => (tt, model_to C model dev w)) ;;
  record (ev_dataloader batch_size true) ;;
  train_dataloader <- call (DataLoader C train_dataset batch_size true) ;;
  record (ev_dataloader batch_size false) ;;
  validation_dataloader <-
    call (DataLoader C validation_dataset batch_size false) ;;
  record (ev_write (training_log out) header) ;;
  fs_write (fun fs => write_file fs (training_log out) (csv_row C header)) ;;
  ret {| env_output_dir := out;
         env_num_epochs := num_epochs;
         env_model := model;
         env_loss_fn := loss_fn;
         env_optimizer := optimizer;
         env_device := dev;
         env_train_dataloader := train_dataloader;
         env_validation_dataloader := validation_dataloader |}.

(** Lines 65-76: one iteration of the loop; the result is [best_loss]. *)
Definition epoch (env : run_env) (i : nat) (best_loss : float) : M float :=
  train_loss <-
    call (train_one_epoch C (env_train_dataloader env) (env_model env)
            (env_loss_fn env) (env_optimizer env) (env_device env)) ;;
  record (ev_train i train_loss) ;;
  validation_loss <-
    call (test_one_epoch C (env_validation_dataloader env) (env_model env)
            (env_loss_fn env) (env_device env)) ;;
  record (ev_test i validation_loss) ;;
  let row := epoch_row i train_loss validation_loss in
  record (ev_append (training_log (env_output_dir env)) row) ;;
  fs_write (fun fs =>
    append_file fs (training_log (env_output_dir env)) (csv_row C row)) ;;
  if float_lt validation_loss best_loss then
    record (ev_script i) ;;
    model_scripted <- ask (jit_script C (env_model env)) ;;
    record (ev_save i (model_pt (env_output_dir env))) ;;
    fs_write (fun fs =>
      jit_save fs (model_pt (env_output_dir env))
        (save_bytes C model_scripted)) ;;
    ret validation_loss
  else ret best_loss.

(** Line 64: [for i in range(num_epochs)], over the indices left. *)
Fixpoint epoch_loop (env : run_env) (indices : list nat) (best_loss : float)
  : M float :=
  match indices with
  | [] => ret best_loss
  | i :: rest =>
      best_loss' <- epoch env i best_loss ;;
      epoch_loop env rest best_loss'
  end.

(** Lines 63-76. *)
Definition epochs (env : run_env) : M float :=
  n <- lift (as_index (env_num_epochs env)) ;;
  epoch_loop env (range n) float_inf.

(** The whole script; the result is the final [best_loss]. *)
Definition train (a : args) (now : string) : M float :=
  env <- setup a now ;;
  epochs env.

(** The script stopped at the head of the loop after [k] iterations, for
    the state of a run at every point of the loop; with no bound it is
    the whole script.  The objects built are returned with [best_loss]. *)
Definition bounded (limit : option nat) (indices : list nat) : list nat :=
  match limit with
  | Some k => firstn k indices
  | None => indices
  end.

Definition train_upto (limit : option nat) (a : args) (now : string)
  : M (run_env * float) :=
  env <- setup a now ;;
  n <- lift (as_index (env_num_epochs env)) ;;
  best_loss <- epoch_loop env (bounded limit (range n)) float_inf ;;
  ret (env, best_loss).

Definition initial (fs : filesystem) (w : World C) : state :=
  {| st_fs := fs; st_world := w; st_trace := [] |}.

(** [wp m Q s]: the run of [m] from [s] ends, returning or raising, in an
    outcome and a state that satisfy [Q]. *)
Definition wp {A} (m : M A) (Q : outcome A -> state -> Prop) (s : state)
  : Prop :=
  Q (fst (m s)) (snd (m s)).

Definition set_fs (s : state) (fs : filesystem) : state :=
  {| st_fs := fs; st_world := st_world s; st_trace := st_trace s |}.

Definition set_world (s : state) (w : World C) : state :=
  {| st_fs := st_fs s; st_world := w; st_trace := st_trace s |}.

Definition add_event (s : state) (e : event) : state :=
  {| st_fs := st_fs s; st_world := st_world s; st_trace := st_trace s ++ [e] |}.

End Script.

(** ** What a trace shows *)

Definition tests (tr : list event) : list (nat * float) :=
  flat_map (fun e => match e with ev_test i v => [(i, v)] | _ => [] end) tr.

Definition validation_losses (tr : list event) : list float :=
  map snd (tests tr).

Definition training_losses (tr : list event) : list float :=
  flat_map (fun e => match e with ev_train _ t => [t] | _ => [] end) tr.

Definition saved_epochs (tr : list event) : list nat :=
  flat_map (fun e => match e with ev_save i _ => [i] | _ => [] end) tr.

(** The calls of [train_one_epoch] ([true]) and of [test_one_epoch]
    ([false]), each with the iteration it belongs to. *)
Definition loop_calls (tr : list event) : list (nat * bool) :=
  flat_map (fun e => match e with
                     | ev_train i _ => [(i, true)]
                     | ev_test i _ => [(i, false)]
                     | _ => []
                     end) tr.

(** ** The policy, as the loop computes it *)

(** [best_loss] after the validation losses [vs], starting from [b]. *)
Definition best_after (b : float) (vs : list float) : float :=
  fold_left (fun best v => if float_lt v best then v else best) vs b.

(** The iterations that take the branch of line 72. *)
Fixpoint checkpoints (b : float) (ivs : list (nat * float)) : list nat :=
  match ivs with
  | [] => []
  | (i, v) :: rest =>
      if float_lt v b then i :: checkpoints v rest else checkpoints b rest
  end.

Definition number (vs : list float) : list (nat * float) :=
  combine (seq 0 (List.length vs)) vs.

(** ** The events of the loop

    What the iterations log, given for each its index, its training loss
    and its validation loss, and [best_loss] at the start. *)

Definition epoch_events (out : path) (b : float) (i : nat) (t v : float)
  : list event :=
  [ev_train i t; ev_test i v; ev_append (training_log out) (epoch_row i t v)]
  ++ (if float_lt v b then [ev_script i; ev_save i (model_pt out)] else []).

Fixpoint loop_events (out : path) (b : float)
  (results : list (nat * (float * float))) : list event :=
  match results with
  | [] => []
  | (i, (t, v)) :: rest =>
      epoch_events out b i t v
      ++ loop_events out (if float_lt v b then v else b) rest
  end.

Definition result_row (r : nat * (float * float)) : list cell :=
  epoch_row (fst r) (fst (snd r)) (snd (snd r)).

Definition result_test (r : nat * (float * float)) : nat * float :=
  (fst r, snd (snd r)).

(** The calls of lines 38-61, with the sections of the configuration
    they are given and the device chosen. *)
Definition setup_trace (a : args) (out : path)
  (batch_size data model loss optimizer : toml) (dev : device) : list event :=
  [ev_mkdir out;
   ev_load_config (config a);
   ev_copyfile (config a) (config_copy out);
   ev_dataset (train_data a) data;
   ev_dataset (val_data a) data;
   ev_regressor model;
   ev_loss loss;
   ev_optimizer optimizer;
   ev_to_device dev;
   ev_dataloader batch_size true;
   ev_dataloader batch_size false;
   ev_write (training_log out) header].

(** The calls that build a dataset, the model or a training object. *)
Definition constructs (e : event) : bool :=
  match e with
  | ev_dataset _ _ | ev_regressor _ | ev_loss _ | ev_optimizer _
  | ev_dataloader _ _ => true
  | _ => false
  end.

(** The configuration as the script reads it from the file system. *)
Record configured (C : components) (fs : filesystem) (a : args)
  (raw : list byte) (cfg : toml) : Prop := {
  cfg_read : read_file fs (config a) = inr raw;
  cfg_load : tomllib_load C raw = Some cfg
}.

(** The sections and values the script takes from the configuration. *)
Definition sections (cfg batch_size data model loss optimizer num_epochs : toml)
  : Prop :=
  exists training,
    subscript cfg "training" = inr training /\
    subscript training "batch_size" = inr batch_size /\
    subscript training "num_epochs" = inr num_epochs /\
    subscript cfg "data" = inr data /\
    subscript cfg "model" = inr model /\
    subscript training "loss" = inr loss /\
    subscript training "optimizer" = inr optimizer.

(** [config["training"]["num_epochs"]], as [range] takes it. *)
Definition num_epochs_of (C : components) (fs : filesystem) (a : args) (n : Z)
  : Prop :=
  exists raw cfg training v,
    configured C fs a raw cfg /\
    subscript cfg "training" = inr training /\
    subscript training "num_epochs" = inr v /\
    as_index v = inr n.


(** The writes to the log and the calls of the two passes. *)
Definition log_view (tr : list event) : list event :=
  filter (fun e => match e with
                   | ev_write _ _ | ev_append _ _ | ev_train _ _ | ev_test _ _ =>
                       true
                   | _ => false
                   end) tr.

Definition rows (indices : list nat) (ts vs : list float) : list (list cell) :=
  map result_row (combine indices (combine ts vs)).

(** ** The claims' words *)

Definition not_nan (x : float) : bool := negb (isnan x).

(** The validation loss of epoch [i] is strictly less than positive
    infinity and than every validation loss of the preceding epochs. *)
Definition below_all_before (vs : list float) (i : nat) : bool :=
  match nth_error vs i with
  | Some v => forallb (float_lt v) (float_inf :: firstn i vs)
  | None => false
  end.

(** The same, against the preceding losses that are numbers. *)
Definition below_numbers_before (vs : list float) (i : nat) : bool :=
  match nth_error vs i with
  | Some v => forallb (float_lt v) (float_inf :: filter not_nan (firstn i vs))
  | None => false
  end.

(** [m] is the minimum of [l]: one of its elements, and not above any. *)
Definition is_minimum (m : float) (l : list float) : Prop :=
  In m l /\ forall x, In x l -> float_le m x = true.

Definition last_of (l : list nat) : option nat :=
  match rev l with
  | [] => None
  | x :: _ => Some x
  end.

(** The guard of lines 34-37. *)
Definition guard (fs : filesystem) (a : args) (now : string) : bool :=
  path_exists fs (output_path a now) && negb (force a).

(** ** Components to run the script on

    The world is the list of the losses still to come, the training and
    the validation loss of each epoch in turn; the checkpoint is as long
    as what is left of the list, and the number of epochs is the length
    of the configuration file. *)

Definition tape_next (w : list float) : float * list float :=
  match w with
  | [] => (float_one, [])
  | x :: w' => (x, w')
  end.

Definition demo_config (n : Z) : toml :=
  TTable
    [("training",
      TTable [("batch_size", TInt 32); ("num_epochs", TInt n);
              ("loss", TStr "mse");
              ("optimizer", TTable [("name", TStr "adam")])]);
     ("data", TTable [("features", TInt 3)]);
     ("model", TTable [])].

Definition demo_cell (c : cell) : byte :=
  match c with
  | CStr _ => x73
  | CInt _ => x69
  | CFloat f => if isnan f then x6e else x66
  end.

Definition demo : components := {|
  World := list float;
  Dataset := string;
  Model := unit;
  LossFn := unit;
  Optimizer := unit;
  Loader := string;
  Scripted := list float;
  tomllib_load := fun raw => Some (demo_config (Z.of_nat (List.length raw)));
  tomllib_failure := fun _ => NotTOML;
  PointCloudDataset := fun data _ w => (data, w);
  Regressor := fun _ w => (tt, w);
  CustomLoss := fun _ w => (tt, w);
  build_optimizer := fun _ _ w => (tt, w);
  cuda_is_available := fun _ => false;
  model_to := fun _ _ w => w;
  DataLoader := fun ds _ _ w => (ds, w);
  train_one_epoch := fun _ _ _ _ _ w => tape_next w;
  test_one_epoch := fun _ _ _ _ w => tape_next w;
  jit_script := fun _ w => w;
  save_bytes := fun m => map (fun _ => x2a) m;
  csv_row := fun row => map demo_cell row ++ [x0a]
|}.

Definition demo_args (f : bool) : args := {|
  train_data := "train.parquet";
  val_data := "val.parquet";
  config := ["config.toml"];
  output_dir := Some ["out"];
  force := f
|}.

(** A working directory with the configuration file only. *)
Definition demo_fs (raw : list byte) : filesystem :=
  fun p => if path_eqb p ["config.toml"] then Some (File raw) else None.

(** The same, with a regular file where the output directory should be. *)
Definition demo_fs_file (raw : list byte) : filesystem :=
  fs_set (demo_fs raw) ["out"] (File []).

(** The same, with an output directory that holds a file of an earlier
    run. *)
Definition demo_fs_dir (raw : list byte) : filesystem :=
  fs_set (fs_set (demo_fs raw) ["out"] Dir) ["out"; "notes.txt"] (File [x68; x69]).

(** ** Further observations *)

(** The three files the script writes. *)
Definition outputs (out : path) : list path :=
  [config_copy out; training_log out; model_pt out].

(** A working directory with nothing in it. *)
Definition empty_fs : filesystem := fun _ => None.

(** The components [C] with another parser of TOML. *)
Definition with_parser (C : components) (parse : list byte -> option toml)
  : components := {|
  World := World C;
  Dataset := Dataset C;
  Model := Model C;
  LossFn := LossFn C;
  Optimizer := Optimizer C;
  Loader := Loader C;
  Scripted := Scripted C;
  tomllib_load := parse;
  tomllib_failure := tomllib_failure C;
  PointCloudDataset := PointCloudDataset C;
  Regressor := Regressor C;
  CustomLoss := CustomLoss C;
  build_optimizer := build_optimizer C;
  cuda_is_available := cuda_is_available C;
  model_to := model_to C;
  DataLoader := DataLoader C;
  train_one_epoch := train_one_epoch C;
  test_one_epoch := test_one_epoch C;
  jit_script := jit_script C;
  save_bytes := save_bytes C;
  csv_row := csv_row C
|}.


(** The command of an earlier run again, on the configuration that run
    left in its output directory. *)
Definition demo_args_rerun : args := {|
  train_data := "train.parquet";
  val_data := "val.parquet";
  config := ["out"; "config.toml"];
  output_dir := Some ["out"];
  force := true
|}.

Definition demo_fs_rerun (raw : list byte) : filesystem :=
  fs_set (fs_set (demo_fs raw) ["out"] Dir) ["out"; "config.toml"] (File raw).

(** A command with a nested output directory. *)
Definition demo_args_nested : args := {|
  train_data := "train.parquet";
  val_data := "val.parquet";
  config := ["config.toml"];
  output_dir := Some ["runs"; "exp1"];
  force := false
|}.

(** The validation losses at which [save] is called: for every call, the
    loss the last call of [test_one_epoch] before it returned. *)
Fixpoint saved_losses_from (last : float) (tr : list event) : list float :=
  match tr with
  | [] => []
  | ev_test _ v :: rest => saved_losses_from v rest
  | ev_save _ _ :: rest => last :: saved_losses_from last rest
  | _ :: rest => saved_losses_from last rest
  end.

Definition saved_losses (tr : list event) : list float :=
  saved_losses_from float_nan tr.

(** Each element is strictly less than the one before it. *)
Fixpoint decreasing (l : list float) : bool :=
  match l with
  | x :: (y :: _) as rest => float_lt y x && decreasing rest
  | _ => true
  end.


Definition returned {A} (o : outcome A) : bool :=
  match o with Returned _ => true | Raised _ => false end.

(** The keys the script looks up in the configuration before it
    constructs anything (lines 43-45). *)
Definition early_keys : list string :=
  ["training"; "batch_size"; "num_epochs"; "data"].

(** A configuration whose [num_epochs] is the float [2.0]. *)
Definition demo_config_float : toml :=
  TTable
    [("training",
      TTable [("batch_size", TInt 32); ("num_epochs", TFloat float_two);
              ("loss", TStr "mse");
              ("optimizer", TTable [("name", TStr "adam")])]);
     ("data", TTable [("features", TInt 3)]);
     ("model", TTable [])].

(** A configuration with no [data] table. *)
Definition demo_config_no_data : toml :=
  TTable
    [("training",
      TTable [("batch_size", TInt 32); ("num_epochs", TInt 2);
              ("loss", TStr "mse");
              ("optimizer", TTable [("name", TStr "adam")])]);
     ("model", TTable [])].

(** An output directory of an earlier run in which [model.pt] is a
    directory. *)
Definition demo_fs_model_dir (raw : list byte) : filesystem :=
  fs_set (fs_set (demo_fs raw) ["out"] Dir) ["out"; "model.pt"] Dir.

(** A command with no [--output-dir]. *)
Definition demo_args_default : args := {|
  train_data := "train.parquet";
  val_data := "val.parquet";
  config := ["config.toml"];
  output_dir := None;
  force := false
|}.

(** * Proofs *)

(** ** The order of floats *)

Ltac float_cases :=
  repeat match goal with
  | x : float |- _ => destruct x
  | s : bool |- _ => destruct s
  end; cbn in *; try congruence; try reflexivity.

Ltac cmp_cases :=
  repeat match goal with
  | H : context[Z.compare ?a ?b] |- _ =>
      destruct (Z.compare_spec a b); cbn in H
  | |- context[Z.compare ?a ?b] =>
      destruct (Z.compare_spec a b); cbn
  | H : context[Pos.compare_cont Eq ?a ?b] |- _ =>
      change (Pos.compare_cont Eq a b) with (Pos.compare a b) in H;
      destruct (Pos.compare_spec a b); cbn in H
  | |- context[Pos.compare_cont Eq ?a ?b] =>
      change (Pos.compare_cont Eq a b) with (Pos.compare a b);
      destruct (Pos.compare_spec a b); cbn
  end; subst; try congruence; try reflexivity; try lia.

Lemma float_lt_trans x y z :
  float_lt x y = true -> float_lt y z = true -> float_lt x z = true.
Proof. unfold float_lt, SFltb. float_cases; cmp_cases. Qed.

Lemma float_lt_not_lt_trans x y z :
  float_lt x y = true -> float_lt z y = false -> isnan z = false ->
  float_lt x z = true.
Proof. unfold float_lt, SFltb. float_cases; cmp_cases. Qed.

Lemma float_lt_nan_r x : float_lt x float_nan = false.
Proof. destruct x; reflexivity. Qed.

Lemma float_lt_nan_l x : float_lt float_nan x = false.
Proof. destruct x; reflexivity. Qed.

Lemma float_lt_not_nan x y : float_lt x y = true -> isnan x = false.
Proof. destruct x; cbn; congruence. Qed.

Lemma float_lt_irrefl x : float_lt x x = false.
Proof. unfold float_lt, SFltb. float_cases; cmp_cases. Qed.

Lemma float_le_refl x : isnan x = false -> float_le x x = true.
Proof. unfold float_le, SFleb. float_cases; cmp_cases. Qed.

Lemma float_lt_le x y : float_lt x y = true -> float_le x y = true.
Proof. unfold float_lt, float_le, SFltb, SFleb. destruct (SFcompare x y) as [[]|]; congruence. Qed.

Lemma float_not_lt_le x y :
  isnan x = false -> isnan y = false -> float_lt x y = false ->
  float_le y x = true.
Proof. unfold float_lt, float_le, SFltb, SFleb. float_cases; cmp_cases. Qed.

Lemma float_le_not_lt x y : float_le x y = true -> float_lt y x = false.
Proof. unfold float_lt, float_le, SFltb, SFleb. float_cases; cmp_cases. Qed.

Lemma float_le_trans x y z :
  float_le x y = true -> float_le y z = true -> float_le x z = true.
Proof. unfold float_le, SFleb. float_cases; cmp_cases. Qed.

(** ** Paths *)

Lemma path_eqb_eq p q : path_eqb p q = true <-> p = q.
Proof.
  revert q. induction p as [|a p IH]; intros [|b q]; cbn; split;
    try congruence; try reflexivity.
  - intros H. apply andb_true_iff in H as [H1 H2].
    apply String.eqb_eq in H1. apply IH in H2. congruence.
  - intros H. injection H as -> ->. apply andb_true_iff. split.
    + apply String.eqb_refl.
    + now apply IH.
Qed.

Lemma path_eqb_refl p : path_eqb p p = true.
Proof. now apply path_eqb_eq. Qed.

Lemma path_eqb_neq p q : p <> q -> path_eqb p q = false.
Proof.
  intros H. destruct (path_eqb p q) eqn:E; [|reflexivity].
  apply path_eqb_eq in E. contradiction.
Qed.

Lemma parent_joinpath d x : parent (joinpath d x) = d.
Proof. apply removelast_last. Qed.

Lemma joinpath_not_nil d x : joinpath d x <> [].
Proof. unfold joinpath. destruct d; discriminate. Qed.

Lemma joinpath_neq d x y : x <> y -> joinpath d x <> joinpath d y.
Proof.
  unfold joinpath. intros H E. apply app_inv_head in E. congruence.
Qed.

Lemma length_joinpath d x : List.length (joinpath d x) = S (List.length d).
Proof. unfold joinpath. rewrite length_app. cbn. lia. Qed.

Lemma prefixes_snoc d x : prefixes (d ++ [x]) = prefixes d ++ [d ++ [x]].
Proof.
  induction d as [|c d IH]; cbn; [reflexivity|].
  rewrite IH, map_app. reflexivity.
Qed.

Lemma prefixes_length q p : In q (prefixes p) -> (List.length q <= List.length p)%nat.
Proof.
  revert q. induction p as [|c p IH]; cbn; [tauto|].
  intros q [<-|H]; cbn; [lia|].
  apply in_map_iff in H as (r & <- & Hr). apply IH in Hr. cbn. lia.
Qed.

Lemma prefixes_not_nil q p : In q (prefixes p) -> q <> [].
Proof.
  destruct p as [|c p]; cbn; [tauto|].
  intros [<-|H]; [discriminate|].
  apply in_map_iff in H as (r & <- & _). discriminate.
Qed.

Lemma prefixes_parent p : p <> [] -> prefixes p = prefixes (parent p) ++ [p].
Proof.
  intros H. destruct (exists_last H) as (d & x & ->).
  unfold parent. rewrite removelast_last. apply prefixes_snoc.
Qed.

Lemma parent_length p : p <> [] -> (List.length (parent p) < List.length p)%nat.
Proof.
  intros H. destruct (exists_last H) as (d & x & ->).
  unfold parent. rewrite removelast_last, length_app. cbn. lia.
Qed.

(** ** The file system *)

Lemma node_at_fs_set_same fs p n :
  p <> [] -> node_at (fs_set fs p n) p = Some n.
Proof.
  intros H. destruct p; [congruence|].
  unfold node_at, fs_set. now rewrite path_eqb_refl.
Qed.

Lemma node_at_fs_set_other fs p n q :
  q <> p -> node_at (fs_set fs p n) q = node_at fs q.
Proof.
  intros H. destruct q; [reflexivity|].
  unfold node_at, fs_set. now rewrite path_eqb_neq.
Qed.

Lemma existsb_ext_in {A} (f g : A -> bool) l :
  (forall x, In x l -> f x = g x) -> existsb f l = existsb g l.
Proof.
  induction l as [|a l IH]; cbn; intros H; [reflexivity|].
  rewrite H by now left. rewrite IH; [reflexivity|].
  intros x Hx. apply H. now right.
Qed.

Lemma blocked_fs_set fs p n q :
  (List.length q <= List.length p)%nat -> blocked (fs_set fs p n) q = blocked fs q.
Proof.
  intros H. unfold blocked. apply existsb_ext_in. intros r Hr.
  rewrite node_at_fs_set_other; [reflexivity|].
  intros ->. destruct q as [|c q]; [contradiction|].
  apply prefixes_length in Hr.
  assert ((List.length (parent (c :: q)) < List.length (c :: q))%nat)
    by (apply parent_length; discriminate).
  lia.
Qed.

Lemma blocked_joinpath fs d x :
  blocked fs (joinpath d x) = blocked fs d || is_file (node_at fs d).
Proof.
  unfold blocked. rewrite parent_joinpath.
  destruct d as [|c d]; [reflexivity|].
  rewrite (@prefixes_parent (c :: d)) by discriminate.
  rewrite existsb_app. cbn. now rewrite orb_false_r.
Qed.

Lemma ready_open fs out x :
  ready fs out ->
  open_for_writing fs (joinpath out x) =
  match node_at fs (joinpath out x) with
  | Some Dir => Some IsADirectoryError
  | _ => None
  end.
Proof.
  intros [Hb Hd]. unfold open_for_writing.
  rewrite blocked_joinpath, Hb, parent_joinpath, Hd. reflexivity.
Qed.

Lemma ready_fs_set fs out x n :
  ready fs out -> ready (fs_set fs (joinpath out x) n) out.
Proof.
  intros [Hb Hd]. split.
  - rewrite blocked_fs_set; [assumption|]. rewrite length_joinpath. lia.
  - rewrite node_at_fs_set_other; [assumption|].
    intros E. apply (f_equal (@List.length _)) in E.
    rewrite length_joinpath in E. lia.
Qed.

Lemma path_eq_dec (p q : path) : {p = q} + {p <> q}.
Proof. apply list_eq_dec, string_dec. Qed.

Lemma grows_refl fs : grows fs fs.
Proof. intros r. now left. Qed.

Lemma grows_trans fs1 fs2 fs3 : grows fs1 fs2 -> grows fs2 fs3 -> grows fs1 fs3.
Proof.
  intros H12 H23 r. destruct (H12 r) as [E|[E1 E2]], (H23 r) as [F|[F1 F2]].
  - left. congruence.
  - right. split; congruence.
  - right. split; congruence.
  - congruence.
Qed.

Lemma grows_mkdir_missing fs q : grows fs (mkdir_missing fs q).
Proof.
  intros r. unfold mkdir_missing. destruct (node_at fs q) eqn:E; [now left|].
  destruct (path_eq_dec r q) as [->|N].
  - right. split; [assumption|]. apply node_at_fs_set_same.
    intros ->. discriminate.
  - left. now apply node_at_fs_set_other.
Qed.

Lemma grows_fold fs l : grows fs (fold_left mkdir_missing l fs).
Proof.
  revert fs. induction l as [|q l IH]; cbn; intros fs; [apply grows_refl|].
  eapply grows_trans; [apply grows_mkdir_missing | apply IH].
Qed.

Lemma grows_is_file fs fs' r :
  grows fs fs' -> is_file (node_at fs' r) = is_file (node_at fs r).
Proof. intros G. destruct (G r) as [->|[-> ->]]; reflexivity. Qed.

Lemma grows_blocked fs fs' p : grows fs fs' -> blocked fs' p = blocked fs p.
Proof.
  intros G. unfold blocked. apply existsb_ext_in. intros r _.
  now apply grows_is_file.
Qed.

Lemma grows_kept fs fs' r :
  grows fs fs' -> node_at fs r <> None -> node_at fs' r = node_at fs r.
Proof. intros G N. destruct (G r) as [E|[E _]]; [assumption|contradiction]. Qed.

Lemma grows_file fs fs' r c :
  grows fs fs' -> node_at fs' r = Some (File c) -> node_at fs r = Some (File c).
Proof. intros G H. destruct (G r) as [E|[_ E]]; congruence. Qed.

Lemma mkdir_returns fs p fs' :
  mkdir_parents_exist_ok fs p = inr fs' -> grows fs fs' /\ ready fs' p.
Proof.
  unfold mkdir_parents_exist_ok. destruct (blocked fs p) eqn:B; [discriminate|].
  destruct (node_at fs p) as [[|c]|] eqn:N; try discriminate.
  - intros [= <-]. split; [apply grows_refl|]. now split.
  - intros [= <-]. assert (G := grows_fold fs (prefixes p)).
    split; [assumption|]. split.
    + now rewrite (grows_blocked p G).
    + assert (P : p <> []) by (intros ->; discriminate).
      rewrite (prefixes_parent P), fold_left_app. cbn.
      set (mid := fold_left mkdir_missing (prefixes (parent p)) fs).
      assert (Gm : grows fs mid) by apply grows_fold.
      unfold mkdir_missing. destruct (node_at mid p) eqn:E.
      * destruct (Gm p) as [F|[_ F]]; congruence.
      * now apply node_at_fs_set_same.
Qed.

Lemma mkdir_raises fs p e :
  mkdir_parents_exist_ok fs p = inl e ->
  (e = NotADirectoryError /\ blocked fs p = true) \/
  (e = FileExistsError /\ blocked fs p = false /\ is_file (node_at fs p) = true).
Proof.
  unfold mkdir_parents_exist_ok. destruct (blocked fs p) eqn:B.
  - intros [= <-]. now left.
  - destruct (node_at fs p) as [[|c]|]; try discriminate.
    intros [= <-]. right. auto.
Qed.

(** ** A logic for runs *)

Section Logic.

Context {C : components}.

Lemma wp_ret {A} (a : A) Q (s : @state C) : Q (Returned a) s -> wp (ret a) Q s.
Proof. exact (fun H => H). Qed.

Lemma wp_raise {A} e (Q : outcome A -> _) (s : @state C) : Q (Raised e) s -> wp (raise e) Q s.
Proof. exact (fun H => H). Qed.

Lemma wp_bind {A B} (m : M A) (k : A -> M B) Q (s : @state C) :
  wp m (fun o s' => match o with
                    | Returned a => wp (k a) Q s'
                    | Raised e => Q (Raised e) s'
                    end) s ->
  wp (bind m k) Q s.
Proof. unfold wp, bind. destruct (m s) as [[a|e] s']; exact (fun H => H). Qed.

Lemma wp_record e Q (s : @state C) : Q (Returned tt) (add_event s e) -> wp (record e) Q s.
Proof. exact (fun H => H). Qed.

Lemma wp_lift {A} (r : exn + A) Q (s : @state C) :
  (forall e, r = inl e -> Q (Raised e) s) ->
  (forall a, r = inr a -> Q (Returned a) s) ->
  wp (lift r) Q s.
Proof. destruct r; intros H1 H2; [now apply H1 | now apply H2]. Qed.

Lemma wp_call {A} (f : World C -> A * World C) Q (s : @state C) :
  (forall a w, f (st_world s) = (a, w) -> Q (Returned a) (set_world s w)) ->
  wp (call f) Q s.
Proof.
  unfold wp, call. intros H. destruct (f (st_world s)) as [a w] eqn:E.
  now apply H.
Qed.

Lemma wp_ask {A} (f : World C -> A) Q (s : @state C) :
  Q (Returned (f (st_world s))) s -> wp (ask f) Q s.
Proof. exact (fun H => H). Qed.

Lemma wp_fs_read {A} (f : filesystem -> exn + A) Q (s : @state C) :
  (forall e, f (st_fs s) = inl e -> Q (Raised e) s) ->
  (forall a, f (st_fs s) = inr a -> Q (Returned a) s) ->
  wp (fs_read f) Q s.
Proof.
  unfold wp, fs_read. destruct (f (st_fs s)); intros H1 H2;
    [now apply H1 | now apply H2].
Qed.

Lemma wp_fs_write (f : filesystem -> exn + filesystem) Q (s : @state C) :
  (forall e, f (st_fs s) = inl e -> Q (Raised e) s) ->
  (forall fs', f (st_fs s) = inr fs' -> Q (Returned tt) (set_fs s fs')) ->
  wp (fs_write f) Q s.
Proof.
  unfold wp, fs_write. destruct (f (st_fs s)); intros H1 H2;
    [now apply H1 | now apply H2].
Qed.

Lemma wp_if {A} (b : bool) (m1 m2 : M A) Q (s : @state C) :
  (b = true -> wp m1 Q s) -> (b = false -> wp m2 Q s) ->
  wp (if b then m1 else m2) Q s.
Proof. destruct b; auto. Qed.

Lemma wp_mono {A} (m : M A) (Q Q' : outcome A -> state -> Prop) (s : @state C) :
  wp m Q s -> (forall o s', Q o s' -> Q' o s') -> wp m Q' s.
Proof. unfold wp. auto. Qed.

Lemma wp_and {A} (m : M A) (Q1 Q2 : outcome A -> state -> Prop) (s : @state C) :
  wp m Q1 s -> wp m Q2 s -> wp m (fun o s' => Q1 o s' /\ Q2 o s') s.
Proof. unfold wp. auto. Qed.

Lemma wp_run {A} (m : M A) Q (s : @state C) o s' : wp m Q s -> m s = (o, s') -> Q o s'.
Proof. unfold wp. intros H E. now rewrite E in H. Qed.

End Logic.

Ltac wp_step1 :=
  lazymatch goal with
  | |- wp (bind _ _) _ _ => apply wp_bind
  | |- wp (ret _) _ _ => apply wp_ret
  | |- wp (raise _) _ _ => apply wp_raise
  | |- wp (record _) _ _ => apply wp_record
  | |- wp (lift _) _ _ => apply wp_lift; [intros ? ?|intros ? ?]
  | |- wp (call _) _ _ => apply wp_call; intros ? ? ?
  | |- wp (ask _) _ _ => apply wp_ask
  | |- wp (fs_read _) _ _ => apply wp_fs_read; [intros ? ?|intros ? ?]
  | |- wp (fs_write _) _ _ => apply wp_fs_write; [intros ? ?|intros ? ?]
  | |- wp (if _ then _ else _) _ _ => apply wp_if; intros ?
  | |- wp (let _ := _ in _) _ _ => cbv zeta
  end.

Ltac wp_step :=
  wp_step1; cbn [st_fs st_world st_trace set_fs set_world add_event] in *.

(** ** Which exceptions the file operations raise *)

Lemma read_file_exn fs p e : read_file fs p = inl e -> e <> FileExistsError.
Proof.
  unfold read_file. destruct (blocked fs p); [intros [= <-]; discriminate|].
  destruct (node_at fs p) as [[|c]|]; intros [= <-]; discriminate.
Qed.

Lemma open_for_writing_exn fs p e :
  open_for_writing fs p = Some e -> e <> FileExistsError.
Proof.
  unfold open_for_writing. destruct (blocked fs p); [intros [= <-]; discriminate|].
  destruct (node_at fs (parent p)) as [[|c]|]; try (intros [= <-]; discriminate).
  destruct (node_at fs p) as [[|c]|]; intros [= <-]; discriminate.
Qed.

Lemma write_file_exn fs p d e : write_file fs p d = inl e -> e <> FileExistsError.
Proof.
  unfold write_file. destruct (open_for_writing fs p) eqn:E; [|discriminate].
  intros [= <-]. eapply open_for_writing_exn, E.
Qed.

Lemma jit_save_exn fs p d e : jit_save fs p d = inl e -> e <> FileExistsError.
Proof.
  unfold jit_save. destruct (write_file fs p d); [|discriminate].
  intros [= <-]. discriminate.
Qed.

Lemma append_file_exn fs p d e : append_file fs p d = inl e -> e <> FileExistsError.
Proof.
  unfold append_file. destruct (open_for_writing fs p) eqn:E.
  - intros [= <-]. eapply open_for_writing_exn, E.
  - destruct (node_at fs p) as [[|c]|]; discriminate.
Qed.

Lemma copyfile_exn fs src dst e : copyfile fs src dst = inl e -> e <> FileExistsError.
Proof.
  unfold copyfile. destruct (path_eqb src dst && path_exists fs src).
  - intros [= <-]. discriminate.
  - destruct (read_file fs src) eqn:E.
    + intros [= <-]. eapply read_file_exn, E.
    + apply write_file_exn.
Qed.

Lemma subscript_exn v k e : subscript v k = inl e -> e <> FileExistsError.
Proof.
  destruct v; cbn; try (intros [= <-]; discriminate).
  destruct (assoc k entries); [discriminate|intros [= <-]; discriminate].
Qed.

Lemma as_index_exn v e : as_index v = inl e -> e <> FileExistsError.
Proof. destruct v; cbn; try discriminate; intros [= <-]; discriminate. Qed.

Lemma toml_exn (o : option toml) f e :
  match o with Some t => inr t | None => inl (load_exn f) end = inl e ->
  e <> FileExistsError.
Proof. destruct o; [discriminate|intros [= <-]; destruct f; discriminate]. Qed.

Create HintDb exn.
#[export] Hint Resolve read_file_exn write_file_exn append_file_exn
  jit_save_exn copyfile_exn subscript_exn as_index_exn toml_exn : exn.

Section Guard.

Context {C : components}.

Ltac not_exists :=
  match goal with
  | |- Returned _ <> Raised _ => discriminate
  | |- Raised ?e <> Raised FileExistsError =>
      cut (e <> FileExistsError); [congruence | eauto 2 with exn]
  end.

Lemma epoch_loop_exn (env : @run_env C) indices b s :
  wp (epoch_loop env indices b) (fun o _ => o <> Raised FileExistsError) s.
Proof.
  revert b s. induction indices as [|i rest IH]; intros b s; cbn [epoch_loop].
  - apply wp_ret. discriminate.
  - unfold epoch. 
    repeat wp_step; try not_exists; apply IH.
Qed.

End Guard.

(** ** Writing below a directory that is there *)

Lemma write_file_other fs p d fs' q :
  write_file fs p d = inr fs' -> q <> p -> node_at fs' q = node_at fs q.
Proof.
  unfold write_file. destruct (open_for_writing fs p); [discriminate|].
  intros [= <-] N. now apply node_at_fs_set_other.
Qed.

Lemma append_file_other fs p d fs' q :
  append_file fs p d = inr fs' -> q <> p -> node_at fs' q = node_at fs q.
Proof.
  unfold append_file. destruct (open_for_writing fs p); [discriminate|].
  destruct (node_at fs p) as [[|c]|]; intros [= <-] N;
    now apply node_at_fs_set_other.
Qed.

Lemma append_file_ready fs out x c d :
  ready fs out -> node_at fs (joinpath out x) = Some (File c) ->
  append_file fs (joinpath out x) d =
  inr (fs_set fs (joinpath out x) (File (c ++ d))).
Proof.
  intros R H. unfold append_file. rewrite (ready_open x R), H. reflexivity.
Qed.

Lemma write_file_ready fs out x d fs' :
  ready fs out -> write_file fs (joinpath out x) d = inr fs' ->
  fs' = fs_set fs (joinpath out x) (File d).
Proof.
  unfold write_file. destruct (open_for_writing _ _); congruence.
Qed.

Lemma write_file_ready_raises fs out x d e :
  ready fs out -> write_file fs (joinpath out x) d = inl e ->
  e = IsADirectoryError /\ node_at fs (joinpath out x) = Some Dir.
Proof.
  intros R. unfold write_file. rewrite (ready_open x R).
  destruct (node_at fs (joinpath out x)) as [[|c]|]; try discriminate.
  intros [= <-]. auto.
Qed.

Lemma write_file_returns fs out x d :
  ready fs out -> node_at fs (joinpath out x) <> Some Dir ->
  write_file fs (joinpath out x) d = inr (fs_set fs (joinpath out x) (File d)).
Proof.
  intros R H. unfold write_file. rewrite (ready_open x R).
  destruct (node_at fs (joinpath out x)) as [[|c]|]; congruence.
Qed.

Lemma jit_save_ready fs out x d fs' :
  ready fs out -> jit_save fs (joinpath out x) d = inr fs' ->
  fs' = fs_set fs (joinpath out x) (File d).
Proof.
  intros R. unfold jit_save.
  destruct (write_file fs (joinpath out x) d) eqn:E; [discriminate|].
  intros [= <-]. eapply write_file_ready; eassumption.
Qed.

Lemma jit_save_ready_raises fs out x d e :
  ready fs out -> jit_save fs (joinpath out x) d = inl e ->
  e = RuntimeError /\ node_at fs (joinpath out x) = Some Dir.
Proof.
  intros R. unfold jit_save.
  destruct (write_file fs (joinpath out x) d) eqn:E; [|discriminate].
  intros [= <-]. split; [reflexivity|].
  eapply write_file_ready_raises; eassumption.
Qed.

Lemma names_differ :
  "training_log.csv" <> "model.pt" /\ "config.toml" <> "training_log.csv" /\
  "config.toml" <> "model.pt".
Proof. repeat split; discriminate. Qed.

Lemma log_not_model out : training_log out <> model_pt out.
Proof. apply joinpath_neq, names_differ. Qed.

Lemma copy_not_log out : config_copy out <> training_log out.
Proof. apply joinpath_neq, names_differ. Qed.

Lemma copy_not_model out : config_copy out <> model_pt out.
Proof. apply joinpath_neq, names_differ. Qed.

Section Epoch.

Context {C : components}.

Variable env : @run_env C.

Let out := env_output_dir env.

(** One iteration, from a state where the log is in place. *)
Lemma epoch_spec i b s c :
  ready (st_fs s) out ->
  node_at (st_fs s) (training_log out) = Some (File c) ->
  wp (epoch env i b)
    (fun o s' =>
       exists t w1 v,
         train_one_epoch C (env_train_dataloader env) (env_model env)
           (env_loss_fn env) (env_optimizer env) (env_device env)
           (st_world s) = (t, w1) /\
         test_one_epoch C (env_validation_dataloader env) (env_model env)
           (env_loss_fn env) (env_device env) w1 = (v, st_world s') /\
         st_trace s' =
           st_trace s ++
           [ev_train i t; ev_test i v;
            ev_append (training_log out) (epoch_row i t v)] ++
           (if float_lt v b then [ev_script i; ev_save i (model_pt out)]
            else []) /\
         (forall q, q <> training_log out -> q <> model_pt out ->
                    node_at (st_fs s') q = node_at (st_fs s) q) /\
         ready (st_fs s') out /\
         node_at (st_fs s') (training_log out) =
           Some (File (c ++ csv_row C (epoch_row i t v))) /\
         match o with
         | Returned b' =>
             b' = (if float_lt v b then v else b) /\
             node_at (st_fs s') (model_pt out) =
               (if float_lt v b
                then Some (File (save_bytes C
                                   (jit_script C (env_model env) (st_world s'))))
                else node_at (st_fs s) (model_pt out))
         | Raised e =>
             float_lt v b = true /\ e = RuntimeError /\
             node_at (st_fs s) (model_pt out) = Some Dir
         end) s.
Proof.
  intros R L. unfold epoch. fold out.
  apply wp_bind, wp_call. intros t w1 Ht.
  apply wp_bind, wp_record.
  apply wp_bind, wp_call. intros v w2 Hv.
  apply wp_bind, wp_record. cbv zeta.
  apply wp_bind, wp_record.
  cbn [st_fs st_world st_trace set_fs set_world add_event] in *.
  apply wp_bind, wp_fs_write;
    cbn [st_fs st_world st_trace set_fs set_world add_event];
    unfold training_log at 1 3; rewrite (append_file_ready _ _ R L);
    [discriminate|]. fold (training_log out).
  intros fs1 [= <-].
  set (fs1 := fs_set (st_fs s) (training_log out)
                (File (c ++ csv_row C (epoch_row i t v)))).
  assert (R1 : ready fs1 out) by now apply ready_fs_set.
  assert (L1 : node_at fs1 (training_log out) =
               Some (File (c ++ csv_row C (epoch_row i t v)))).
  { apply node_at_fs_set_same, joinpath_not_nil. }
  assert (F1 : forall q, q <> training_log out -> node_at fs1 q = node_at (st_fs s) q).
  { intros q N. now apply node_at_fs_set_other. }
  apply wp_if; intros E.
  - apply wp_bind, wp_record. apply wp_bind, wp_ask. apply wp_bind, wp_record.
    cbn [st_fs st_world st_trace set_fs set_world add_event].
    apply wp_bind, wp_fs_write;
      cbn [st_fs st_world st_trace set_fs set_world add_event].
    + intros e He. exists t, w1, v. rewrite E, <- !app_assoc.
      split; [exact Ht|]. split; [exact Hv|]. split; [reflexivity|].
      split; [intros q N _; now apply F1|]. split; [exact R1|].
      split; [exact L1|]. split; [reflexivity|].
      rewrite <- F1 by (apply not_eq_sym, log_not_model).
      eapply jit_save_ready_raises; eassumption.
    + intros fs2 H2. eapply jit_save_ready in H2; [|exact R1]. subst fs2.
      apply wp_ret. cbn [st_fs st_world st_trace set_fs set_world add_event].
      exists t, w1, v. rewrite E, <- !app_assoc.
      split; [exact Ht|]. split; [exact Hv|]. split; [reflexivity|].
      split.
      { intros q N1 N2. rewrite node_at_fs_set_other by assumption.
        now apply F1. }
      split; [now apply ready_fs_set|].
      split.
      { rewrite node_at_fs_set_other by apply log_not_model. assumption. }
      split; [reflexivity|].
      apply node_at_fs_set_same, joinpath_not_nil.
  - apply wp_ret. cbn [st_fs st_world st_trace set_fs set_world add_event].
    exists t, w1, v. rewrite E, <- !app_assoc.
    split; [exact Ht|]. split; [exact Hv|]. split; [reflexivity|].
    split; [intros q N _; now apply F1|]. split; [exact R1|].
    split; [exact L1|]. split; [reflexivity|].
    apply F1, not_eq_sym, log_not_model.
Qed.

End Epoch.

(** ** The loop *)

Lemma epoch_loop_app {C : components} (env : @run_env C) l1 l2 b s :
  epoch_loop env (l1 ++ l2) b s =
  bind (epoch_loop env l1 b) (fun b' => epoch_loop env l2 b') s.
Proof.
  revert b s. induction l1 as [|i l1 IH]; intros b s; [reflexivity|].
  cbn [app epoch_loop]. unfold bind at 1 2 3.
  destruct (epoch env i b s) as [[b1|e] s1]; [apply IH|reflexivity].
Qed.

Section Loop.

Context {C : components}.

Variable env : @run_env C.

Let out := env_output_dir env.

(** The loop from a state where the log is in place: it logs whole
    iterations, writes nowhere but to the log and the checkpoint, and
    can only stop early on a checkpoint it cannot write. *)
Lemma epoch_loop_spec indices : forall b s c,
  ready (st_fs s) out ->
  node_at (st_fs s) (training_log out) = Some (File c) ->
  wp (epoch_loop env indices b)
    (fun o s' =>
       exists results,
         st_trace s' = st_trace s ++ loop_events out b results /\
         (exists rest, indices = map fst results ++ rest) /\
         (forall q, q <> training_log out -> q <> model_pt out ->
                    node_at (st_fs s') q = node_at (st_fs s) q) /\
         ready (st_fs s') out /\
         node_at (st_fs s') (training_log out) =
           Some (File (c ++ flat_map (fun r => csv_row C (result_row r)) results)) /\
         match o with
         | Returned b' =>
             map fst results = indices /\
             b' = best_after b (map (fun r => snd (snd r)) results) /\
             (checkpoints b (map result_test results) = [] ->
              node_at (st_fs s') (model_pt out) = node_at (st_fs s) (model_pt out))
         | Raised e =>
             e = RuntimeError /\
             node_at (st_fs s) (model_pt out) = Some Dir
         end) s.
Proof.
  induction indices as [|i rest IH]; intros b s c R L; cbn [epoch_loop].
  - apply wp_ret. exists []. cbn. rewrite !app_nil_r.
    repeat split; try apply R; auto. now exists [].
  - apply wp_bind. eapply wp_mono; [apply epoch_spec; eassumption|].
    fold out. intros o s1 (t & w1 & v & Ht & Hv & Htr & Hfr & R1 & L1 & Ho).
    destruct o as [b1|e].
    + destruct Ho as [-> Hm].
      eapply wp_mono; [apply (IH _ _ _ R1 L1)|].
      intros o s2 (results & Htr2 & (rest' & Hpre) & Hfr2 & R2 & L2 & Ho2).
      exists ((i, (t, v)) :: results).
      split.
      { rewrite Htr2, Htr. cbn [loop_events]. unfold epoch_events.
        now rewrite <- !app_assoc. }
      split; [exists rest'; cbn; now rewrite Hpre|].
      split; [intros q N1 N2; rewrite Hfr2, Hfr; auto|].
      split; [exact R2|].
      split.
      { rewrite L2. cbn [flat_map]. unfold result_row at 2. cbn [fst snd].
        now rewrite <- app_assoc. }
      destruct o as [b2|e].
      2: { destruct Ho2 as [-> Hd]. split; [reflexivity|].
           rewrite Hm in Hd. destruct (float_lt v b); [discriminate|exact Hd]. }
      destruct Ho2 as (Hi & Hb & Hc).
      split; [cbn; now rewrite Hi|].
      split; [exact Hb|].
      cbn [map checkpoints]. unfold result_test at 1. cbn [fst snd].
      destruct (float_lt v b); [discriminate|].
      intros Hn. now rewrite (Hc Hn), Hm.
    + destruct Ho as (E & -> & Hd).
      exists [(i, (t, v))]. cbn [loop_events]. unfold epoch_events.
      rewrite app_nil_r.
      split; [exact Htr|].
      split; [exists rest; reflexivity|].
      split; [exact Hfr|].
      split; [exact R1|].
      split; [|split; [reflexivity|exact Hd]].
      rewrite L1. cbn. now rewrite app_nil_r.
Qed.

End Loop.

(** ** The lines before the loop *)

Lemma grows_read_file fs fs' p raw :
  grows fs fs' -> read_file fs' p = inr raw -> read_file fs p = inr raw.
Proof.
  intros G. unfold read_file. rewrite (grows_blocked p G).
  destruct (blocked fs p); [discriminate|].
  destruct (node_at fs' p) as [[|c]|] eqn:E; try discriminate.
  intros [= <-]. now rewrite (grows_file _ G E).
Qed.

Lemma copyfile_returns fs src dst fs' :
  copyfile fs src dst = inr fs' ->
  exists raw, read_file fs src = inr raw /\ write_file fs dst raw = inr fs'.
Proof.
  unfold copyfile. destruct (path_eqb src dst && path_exists fs src);
    [discriminate|].
  destruct (read_file fs src) as [e|raw]; [discriminate|].
  intros H. now exists raw.
Qed.

Lemma model_not_prefix out q : In q (prefixes out) -> q <> model_pt out.
Proof.
  intros H ->. apply prefixes_length in H.
  unfold model_pt in H. rewrite length_joinpath in H. lia.
Qed.

Lemma mkdir_missing_other fs q r :
  r <> q -> node_at (mkdir_missing fs q) r = node_at fs r.
Proof.
  intros N. unfold mkdir_missing. destruct (node_at fs q); [reflexivity|].
  now apply node_at_fs_set_other.
Qed.

Lemma mkdir_fold_other fs l r :
  ~ In r l -> node_at (fold_left mkdir_missing l fs) r = node_at fs r.
Proof.
  revert fs. induction l as [|q l IH]; cbn; intros fs N; [reflexivity|].
  rewrite IH by tauto. apply mkdir_missing_other. intros ->. tauto.
Qed.

Lemma mkdir_child fs out fs' x :
  mkdir_parents_exist_ok fs out = inr fs' ->
  node_at fs' (joinpath out x) = node_at fs (joinpath out x).
Proof.
  unfold mkdir_parents_exist_ok. destruct (blocked fs out); [discriminate|].
  destruct (node_at fs out) as [[|c]|]; try discriminate; intros [= <-];
    [reflexivity|].
  apply mkdir_fold_other. intros H. apply prefixes_length in H.
  rewrite length_joinpath in H. lia.
Qed.

Section Setup.

Context {C : components}.

Ltac prefix_of k :=
  exists k; do 6 eexists;
  split; [cbn; reflexivity|];
  split;
  [ first
      [ intros ?; lia
      | intros _; eexists _, _;
        split; [constructor; eassumption|];
        split; [|eassumption];
        repeat rewrite node_at_fs_set_other
          by (apply joinpath_neq; discriminate);
        apply node_at_fs_set_same, joinpath_not_nil ]
  | first
      [ exact I
      | split; [reflexivity|];
        split; [reflexivity|];
        split; [repeat apply ready_fs_set; assumption|];
        split; [apply node_at_fs_set_same, joinpath_not_nil|];
        eexists _, _;
        split; [constructor; eassumption|];
        eexists; repeat split; eassumption ] ].

Lemma setup_spec a now fs (w : World C) :
  let out := output_path a now in
  wp (setup a now)
    (fun o s1 =>
       (forall q, node_at fs q <> None -> q <> config_copy out ->
                  q <> training_log out ->
                  node_at (st_fs s1) q = node_at fs q) /\
       node_at (st_fs s1) (model_pt out) = node_at fs (model_pt out) /\
       exists k bs d m l op dev,
         st_trace s1 = firstn k (setup_trace a out bs d m l op dev) /\
         ((4 <= k)%nat ->
          exists raw cfg,
            configured C fs a raw cfg /\
            node_at (st_fs s1) (config_copy out) = Some (File raw) /\
            subscript cfg "data" = inr d) /\
         match o with
         | Returned env =>
             k = 12%nat /\ env_output_dir env = out /\
             ready (st_fs s1) out /\
             node_at (st_fs s1) (training_log out) =
               Some (File (csv_row C header)) /\
             exists raw cfg,
               configured C fs a raw cfg /\
               sections cfg bs d m l op (env_num_epochs env)
         | Raised e => True
         end) (initial fs w).
Proof.
  intros out. unfold setup. fold out.
  repeat wp_step.
  all: cbn [initial st_fs st_world st_trace] in *.
  all: repeat match goal with
       | H : mkdir_parents_exist_ok _ _ = inr _ |- _ =>
           pose proof (@mkdir_child _ _ _ "model.pt" H);
           pose proof (@mkdir_child _ _ _ "config.toml" H);
           pose proof (@mkdir_child _ _ _ "training_log.csv" H);
           apply mkdir_returns in H; destruct H
       | H : copyfile _ _ _ = inr _ |- _ =>
           apply copyfile_returns in H; destruct H as (? & ? & H)
       | H : write_file ?f (_ ?o) _ = inr _, R : ready ?f ?o |- _ =>
           eapply write_file_ready in H; [|exact R]; subst
       | H : write_file (fs_set ?f (joinpath ?o ?n) ?v) _ _ = _,
         R : ready ?f ?o |- _ =>
           lazymatch goal with
           | _ : ready (fs_set f (joinpath o n) v) o |- _ => fail
           | _ => pose proof (@ready_fs_set f o n v R)
           end
       end.
  all: try congruence.
  all: repeat match goal with
       | H1 : ?t = inr ?x, H2 : ?t = inr ?y |- _ =>
           assert (x = y) by congruence; subst x; clear H1
       | H : match tomllib_load ?C ?r with _ => _ end = _ |- _ =>
           destruct (tomllib_load C r) eqn:?; inversion H; subst; clear H
       | H : read_file ?f' ?p = inr ?x, G : grows ?f ?f' |- _ =>
           pose proof (grows_read_file _ G H); clear H
       end.
  all: (split; [intros q Hq N1 N2;
                unfold config_copy, training_log in *;
                repeat rewrite node_at_fs_set_other by assumption;
                try first [reflexivity | now apply grows_kept] |]).
  all: (split; [unfold config_copy, training_log, model_pt in *;
                repeat rewrite node_at_fs_set_other
                  by (apply joinpath_neq; discriminate);
                first [reflexivity | assumption] |]).
  all: unfold config_copy, training_log, model_pt in *.
  all: first
    [ prefix_of 0%nat | prefix_of 1%nat | prefix_of 2%nat | prefix_of 3%nat
    | prefix_of 4%nat | prefix_of 5%nat | prefix_of 6%nat | prefix_of 7%nat
    | prefix_of 8%nat | prefix_of 9%nat | prefix_of 10%nat | prefix_of 11%nat
    | prefix_of 12%nat ].
  Unshelve.
  all: first [exact (TInt 0) | exact Cpu].
Qed.


End Setup.

(** ** The whole run *)

Lemma seq_prefix (l rest : list nat) off len :
  l ++ rest = seq off len -> l = seq off (List.length l).
Proof.
  revert off len. induction l as [|x l IH]; intros off len H; [reflexivity|].
  destruct len as [|len]; [discriminate|]. cbn in H. injection H as -> H.
  cbn. f_equal. eapply IH, H.
Qed.

Lemma firstn_seq_prefix k off len :
  firstn k (seq off len) = seq off (Nat.min k len).
Proof.
  revert off len. induction k as [|k IH]; intros off [|len]; cbn;
    try reflexivity.
  now rewrite IH.
Qed.

Lemma bounded_seq limit n :
  exists len, bounded limit (range n) = seq 0 len.
Proof.
  unfold bounded, range. destruct limit as [k|]; [|eauto].
  rewrite firstn_seq_prefix. eauto.
Qed.

Section Run.

Context {C : components}.

Lemma train_upto_spec limit a now fs (w : World C) :
  let out := output_path a now in
  wp (train_upto limit a now)
    (fun o s' =>
       (forall q, node_at fs q <> None -> q <> config_copy out ->
                  q <> training_log out -> q <> model_pt out ->
                  node_at (st_fs s') q = node_at fs q) /\
       exists k bs d m l op dev results,
         st_trace s' =
           firstn k (setup_trace a out bs d m l op dev)
           ++ loop_events out float_inf results /\
         ((k < 12)%nat -> results = []) /\
         map fst results = seq 0 (List.length results) /\
         ((4 <= k)%nat ->
          exists raw cfg,
            configured C fs a raw cfg /\
            node_at (st_fs s') (config_copy out) = Some (File raw) /\
            subscript cfg "data" = inr d) /\
         match o with
         | Returned (env, b) =>
             k = 12%nat /\ env_output_dir env = out /\
             (exists raw cfg,
                configured C fs a raw cfg /\
                sections cfg bs d m l op (env_num_epochs env)) /\
             (exists n, num_epochs_of C fs a n /\
                        as_index (env_num_epochs env) = inr n /\
                        map fst results = bounded limit (range n)) /\
             b = best_after float_inf (map (fun r => snd (snd r)) results) /\
             ready (st_fs s') out /\
             node_at (st_fs s') (training_log out) =
               Some (File (csv_row C header ++
                           flat_map (fun r => csv_row C (result_row r)) results)) /\
             (checkpoints float_inf (map result_test results) = [] ->
              node_at (st_fs s') (model_pt out) = node_at fs (model_pt out))
         | Raised e => True
         end) (initial fs w).
Proof.
  intros out. unfold train_upto. apply wp_bind.
  eapply wp_mono; [apply setup_spec|]. fold out.
  intros o s1 (Hfr & Hmp & k & bs & d & m & l & op & dev & Htr & Hcfg & Ho).
  destruct o as [env|e].
  - destruct Ho as (-> & Hout & R & L & raw & cfg & Hc & Hs).
    apply wp_bind, wp_lift.
    + intros e He. split; [intros q Hq N1 N2 _; now apply Hfr|].
      exists 12%nat, bs, d, m, l, op, dev, []. rewrite app_nil_r.
      repeat split; auto.
    + intros n Hi. rewrite <- Hout in R, L. apply wp_bind.
      eapply wp_mono;
        [apply (epoch_loop_spec env (bounded limit (range n)) float_inf s1 R L)|].
      rewrite Hout.
      intros o s2 (results & Htr2 & Hpre & Hfr2 & R2 & L2 & Ho2).
      destruct o as [b|e]; [apply wp_ret|].
      all: split; [intros q Hq N1 N2 N3; rewrite Hfr2, Hfr; auto|].
      all: exists 12%nat, bs, d, m, l, op, dev, results.
      all: split; [now rewrite Htr2, Htr|].
      all: split; [lia|].
      all: split;
        [destruct Hpre as [rest' Hpre];
         destruct (bounded_seq limit n) as [len Hlen];
         rewrite Hlen in Hpre; symmetry in Hpre;
         apply seq_prefix in Hpre; now rewrite length_map in Hpre|].
      all: split;
        [intros Hk; destruct (Hcfg Hk) as (raw' & cfg' & Hc' & Hcc & Hd);
         exists raw', cfg'; split; [exact Hc'|]; split; [|exact Hd];
         rewrite Hfr2; auto using copy_not_log, copy_not_model|].
      all: try exact I.
      destruct Ho2 as (Hi2 & Hb & Hm).
      split; [reflexivity|]. split; [exact Hout|].
      split; [now exists raw, cfg|].
      split.
      { exists n. split; [|split; assumption].
        destruct Hs as (training & H1 & _ & H2 & _).
        now exists raw, cfg, training, (env_num_epochs env). }
      split; [assumption|].
      split; [assumption|].
      split; [assumption|].
      intros Hnone. now rewrite (Hm Hnone).
  - split; [intros q Hq N1 N2 _; now apply Hfr|].
    exists k, bs, d, m, l, op, dev, []. rewrite app_nil_r.
    repeat split; auto.
Qed.

(** The script is its run with no bound. *)
Lemma train_unbounded a now (s : @state C) :
  train a now s =
  (match fst (train_upto None a now s) with
   | Returned r => Returned (snd r)
   | Raised e => Raised e
   end, snd (train_upto None a now s)).
Proof.
  unfold train, train_upto, epochs, bind, bounded.
  destruct (setup a now s) as [[env|e] s1]; [|reflexivity].
  destruct (lift (as_index (env_num_epochs env)) s1) as [[n|e] s2];
    [|reflexivity].
  destruct (epoch_loop env (range n) float_inf s2) as [[b|e] s3]; reflexivity.
Qed.

(** A run is its first [k] iterations followed by the others. *)
Lemma train_upto_split limit k a now (s0 : @state C) env b s' :
  (forall l : list nat, firstn k (bounded limit l) = firstn k l) ->
  train_upto limit a now s0 = (Returned (env, b), s') ->
  exists bk sk n,
    train_upto (Some k) a now s0 = (Returned (env, bk), sk) /\
    as_index (env_num_epochs env) = inr n /\
    epoch_loop env (skipn k (bounded limit (range n))) bk sk = (Returned b, s').
Proof.
  intros Hk. unfold train_upto, bind.
  destruct (setup a now s0) as [[env'|e] s1]; [|discriminate].
  unfold lift. destruct (as_index (env_num_epochs env')) as [e|n] eqn:En;
    [discriminate|]. cbn [ret bounded].
  rewrite <- (firstn_skipn k (bounded limit (range n))) at 1.
  rewrite epoch_loop_app, Hk. unfold bind.
  destruct (epoch_loop env' (firstn k (range n)) float_inf s1)
    as [[bk|e] sk]; [|discriminate].
  destruct (epoch_loop env' (skipn k (bounded limit (range n))) bk sk)
    as [[b'|e] s2] eqn:E2; [|discriminate].
  intros [= -> -> ->]. exists bk, sk, n. rewrite E2. auto.
Qed.

End Run.

(** ** What the traces show *)

Lemma flat_map_firstn_nil {A B} (g : A -> list B) l k :
  flat_map g l = [] -> flat_map g (firstn k l) = [].
Proof.
  revert k. induction l as [|x l IH]; intros [|k]; cbn; try reflexivity.
  intros H. apply app_eq_nil in H as [H1 H2]. now rewrite H1, IH.
Qed.

Section Observations.

Variables (a : args) (out : path) (bs d m l op : toml) (dev : device).
Variable k : nat.

Let pre := firstn k (setup_trace a out bs d m l op dev).

Lemma tests_setup : tests pre = [].
Proof. now apply flat_map_firstn_nil. Qed.

Lemma training_losses_setup : training_losses pre = [].
Proof. now apply flat_map_firstn_nil. Qed.

Lemma saved_epochs_setup : saved_epochs pre = [].
Proof. now apply flat_map_firstn_nil. Qed.

Lemma loop_calls_setup : loop_calls pre = [].
Proof. now apply flat_map_firstn_nil. Qed.

End Observations.

Lemma tests_loop out b results :
  tests (loop_events out b results) = map result_test results.
Proof.
  revert b. induction results as [|[i [t v]] rs IH]; intros b; [reflexivity|].
  cbn [loop_events]. unfold tests in *. rewrite flat_map_app, IH.
  unfold epoch_events. destruct (float_lt v b); reflexivity.
Qed.

Lemma training_losses_loop out b results :
  training_losses (loop_events out b results) =
  map (fun r => fst (snd r)) results.
Proof.
  revert b. induction results as [|[i [t v]] rs IH]; intros b; [reflexivity|].
  cbn [loop_events]. unfold training_losses in *. rewrite flat_map_app, IH.
  unfold epoch_events. destruct (float_lt v b); reflexivity.
Qed.

Lemma saved_epochs_loop out b results :
  saved_epochs (loop_events out b results) =
  checkpoints b (map result_test results).
Proof.
  revert b. induction results as [|[i [t v]] rs IH]; intros b; [reflexivity|].
  cbn [loop_events map checkpoints]. unfold saved_epochs in *.
  rewrite flat_map_app, IH. unfold epoch_events, result_test at 2. cbn [fst snd].
  destruct (float_lt v b); reflexivity.
Qed.


Lemma validation_losses_app tr1 tr2 :
  validation_losses (tr1 ++ tr2) = validation_losses tr1 ++ validation_losses tr2.
Proof. unfold validation_losses, tests. now rewrite flat_map_app, map_app. Qed.

Lemma validation_losses_loop out b results :
  validation_losses (loop_events out b results) =
  map (fun r => snd (snd r)) results.
Proof.
  unfold validation_losses. rewrite tests_loop, map_map. reflexivity.
Qed.

(** ** The policy on lists *)

Lemma checkpoints_incl b ivs i : In i (checkpoints b ivs) -> In i (map fst ivs).
Proof.
  revert b. induction ivs as [|[j v] r IH]; intros b; cbn; [tauto|].
  destruct (float_lt v b); cbn; intros H.
  - destruct H as [H|H]; [now left|right; eapply IH, H].
  - right. eapply IH, H.
Qed.

Lemma number_tests (results : list (nat * (float * float))) :
  map fst results = seq 0 (List.length results) ->
  map result_test results = number (map (fun r => snd (snd r)) results).
Proof.
  unfold number. rewrite length_map. generalize 0%nat.
  induction results as [|[i [t v]] rs IH]; intros off; cbn; [reflexivity|].
  intros [= -> H]. unfold result_test at 1. cbn [fst snd].
  f_equal. now apply IH.
Qed.

Lemma best_after_not_nan b vs : isnan b = false -> isnan (best_after b vs) = false.
Proof.
  revert b. induction vs as [|v vs IH]; intros b Hb; cbn; [assumption|].
  apply IH. destruct (float_lt v b) eqn:E; [|assumption].
  eapply float_lt_not_nan, E.
Qed.

Lemma best_after_app b vs ws :
  best_after b (vs ++ ws) = best_after (best_after b vs) ws.
Proof. apply fold_left_app. Qed.

Lemma best_after_le b vs :
  isnan b = false -> float_le (best_after b vs) b = true.
Proof.
  revert b. induction vs as [|v vs IH]; intros b Hb; cbn.
  - now apply float_le_refl.
  - destruct (float_lt v b) eqn:E.
    + eapply float_le_trans; [apply IH|now apply float_lt_le].
      eapply float_lt_not_nan, E.
    + now apply IH.
Qed.

(** ** The existence check *)

Lemma mkdir_returns_not_file fs p fs' :
  mkdir_parents_exist_ok fs p = inr fs' ->
  blocked fs p = false /\ is_file (node_at fs p) = false.
Proof.
  unfold mkdir_parents_exist_ok. destruct (blocked fs p); [discriminate|].
  destruct (node_at fs p) as [[|c]|]; try discriminate; auto.
Qed.

Lemma path_exists_file fs p :
  blocked fs p = false -> is_file (node_at fs p) = true -> path_exists fs p = true.
Proof.
  intros B F. unfold path_exists. rewrite B.
  destruct (node_at fs p) as [[|c]|]; try discriminate. reflexivity.
Qed.

Lemma path_exists_blocked fs p : blocked fs p = true -> path_exists fs p = false.
Proof. intros B. unfold path_exists. now rewrite B. Qed.

Lemma guard_passed fs p (f : bool) fs' :
  path_exists fs p && negb f = false ->
  mkdir_parents_exist_ok fs p = inr fs' ->
  ~ (path_exists fs p = true /\ (f = false \/ is_file (node_at fs p) = true)).
Proof.
  intros G H [E [F|F]].
  - rewrite E, F in G. discriminate.
  - apply mkdir_returns_not_file in H as [_ H]. congruence.
Qed.

Section Existence.

Context {C : components}.

Lemma epoch_loop_extends (env : @run_env C) indices b s :
  wp (epoch_loop env indices b)
    (fun _ s' => exists evs, st_trace s' = st_trace s ++ evs) s.
Proof.
  revert b s. induction indices as [|i rest IH]; intros b s; cbn [epoch_loop].
  - apply wp_ret. exists []. now rewrite app_nil_r.
  - unfold epoch. repeat wp_step.
    all: try (eapply wp_mono; [apply IH|]; cbn;
              intros _ s' [evs ->]; rewrite <- ?app_assoc; eauto).
    all: rewrite <- ?app_assoc; eauto.
Qed.

Ltac passed_guard :=
  match goal with
  | Hm : mkdir_parents_exist_ok ?fs ?out = inr _,
    H0 : path_exists ?fs ?out && negb _ = false |- _ =>
      let NG := fresh "NG" in
      pose proof (@guard_passed _ _ _ _ H0 Hm) as NG
  end.

Ltac not_exists_error :=
  lazymatch goal with
  | |- Raised ?e = Raised FileExistsError -> _ =>
      let E := fresh in
      intros E; exfalso;
      assert (e <> FileExistsError) by eauto 2 with exn; congruence
  | |- Returned _ = Raised _ -> _ => discriminate
  end.

Ltac passed_guard_rest :=
  split; [congruence | intros _; eexists; cbn; reflexivity].

Lemma train_guard a now fs (w : World C) :
  let out := output_path a now in
  wp (train a now)
    (fun o s' =>
       (o = Raised FileExistsError <->
        path_exists fs out = true /\
        (force a = false \/ is_file (node_at fs out) = true)) /\
       (o = Raised FileExistsError -> st_fs s' = fs) /\
       (guard fs a now = true -> s' = initial fs w) /\
       (guard fs a now = false -> exists tr, st_trace s' = ev_mkdir out :: tr))
    (initial fs w).
Proof.
  intros out. unfold train, setup, epochs, guard. fold out.
  repeat wp_step.
  all: cbn [initial st_fs st_world st_trace] in *.
  all: try match goal with H : inr _ = inl _ |- _ => discriminate H end.
  all: match goal with H : inr _ = inr ?x |- _ => injection H as <- end.
  all: try (passed_guard;
            split; [|split; [not_exists_error|passed_guard_rest]];
            split; [not_exists_error | intros HR; contradiction]).
  - (* the guard fires *)
    apply andb_true_iff in H0 as [E F]. apply negb_true_iff in F.
    rewrite E, F. repeat split; auto; discriminate.
  - (* mkdir cannot make the directory *)
    apply mkdir_raises in H1 as [[-> B]|(-> & B & F)].
    + rewrite (path_exists_blocked _ _ B) in *.
      repeat split; try discriminate; try (intros []; discriminate).
      intros _. now exists [].
    + rewrite (path_exists_file _ _ B F) in *.
      repeat split; auto; try congruence. intros _. now exists [].
  - (* the loop *)
    passed_guard.
    eapply wp_mono; [apply wp_and; [apply epoch_loop_exn|apply epoch_loop_extends]|].
    cbn [st_trace]. intros o s' [Ho [evs Htr]].
    split; [split; [congruence|intros HR; contradiction]|].
    split; [congruence|]. split; [congruence|].
    intros _. rewrite Htr. cbn. eauto.
Qed.

End Existence.

(** ** Runs and their traces *)

Tactic Notation "run_spec" hyp(H) "as" ident(S) :=
  match type of H with
  | train_upto ?limit ?a ?now (initial ?fs ?w) = _ =>
      pose proof (train_upto_spec limit a now fs w) as S;
      cbv zeta in S; unfold wp in S; rewrite H in S; cbn [fst snd] in S
  end.

Section Runs.

Context {C : components}.

Lemma train_as_upto a now (s : @state C) o s' :
  train a now s = (o, s') ->
  exists o',
    train_upto None a now s = (o', s') /\
    o = match o' with
        | Returned r => Returned (snd r)
        | Raised e => Raised e
        end.
Proof.
  rewrite train_unbounded. intros [= <- <-].
  exists (fst (train_upto None a now s)). split; [|reflexivity].
  now destruct (train_upto None a now s).
Qed.

(** Every run, whatever its outcome, logs a prefix of the calls of lines
    38-61 and then whole iterations, numbered from 0. *)
Lemma trace_shape limit a now fs (w : World C) o s' :
  train_upto limit a now (initial fs w) = (o, s') ->
  exists k bs d m l op dev results,
    st_trace s' =
      firstn k (setup_trace a (output_path a now) bs d m l op dev)
      ++ loop_events (output_path a now) float_inf results /\
    map fst results = seq 0 (List.length results).
Proof.
  intros H. run_spec H as S.
  destruct S
    as (_ & k & bs & d & m & l & op & dev & results & Htr & _ & Hi & _).
  now exists k, bs, d, m, l, op, dev, results.
Qed.

Lemma saved_from_losses limit a now fs (w : World C) o s' :
  train_upto limit a now (initial fs w) = (o, s') ->
  saved_epochs (st_trace s') =
  checkpoints float_inf (number (validation_losses (st_trace s'))).
Proof.
  intros H.
  destruct (trace_shape _ _ _ _ _ H)
    as (k & bs & d & m & l & op & dev & results & -> & Hi).
  rewrite validation_losses_app, validation_losses_loop.
  unfold saved_epochs at 1, validation_losses at 1.
  rewrite flat_map_app. fold (saved_epochs (loop_events (output_path a now) float_inf results)).
  rewrite saved_epochs_loop.
  rewrite (flat_map_firstn_nil _ _ k) by reflexivity.
  rewrite tests_setup. cbn [map app].
  now rewrite number_tests.
Qed.

End Runs.

Lemma checkpoints_spec vs : forall b off i v,
  isnan b = false ->
  nth_error vs i = Some v ->
  In (off + i)%nat (checkpoints b (combine (seq off (List.length vs)) vs)) <->
  float_lt v b = true /\
  forallb (float_lt v) (filter not_nan (firstn i vs)) = true.
Proof.
  induction vs as [|u vs IH]; intros b off i v Hb Hi.
  - destruct i; discriminate.
  - cbn [List.length seq combine checkpoints].
    destruct i as [|i]; cbn [nth_error firstn] in *.
    + injection Hi as ->. rewrite Nat.add_0_r. cbn [filter forallb].
      destruct (float_lt v b) eqn:E.
      * split; [auto|]. intros _. now left.
      * split; [|intros [? _]; discriminate].
        intros H. apply checkpoints_incl in H.
        apply in_map_iff in H as ([j x] & Hj & Hin). cbn in Hj. subst j.
        apply in_combine_l, in_seq in Hin. lia.
    + replace (off + S i)%nat with (S off + i)%nat by lia.
      assert (Hstep : forall b', isnan b' = false ->
                (In (S off + i)%nat
                   (checkpoints b' (combine (seq (S off) (List.length vs)) vs)) <->
                 float_lt v b' = true /\
                 forallb (float_lt v) (filter not_nan (firstn i vs)) = true))
        by (intros b' Hb'; now apply IH).
      cbn [filter]. change (not_nan u) with (negb (isnan u)).
      destruct (float_lt u b) eqn:E.
      * assert (Hu : isnan u = false) by (eapply float_lt_not_nan, E).
        rewrite Hu. cbn [negb forallb].
        split.
        -- intros [H|H]; [lia|]. apply Hstep in H as [H1 H2]; [|assumption].
           rewrite H1, H2. split; [|reflexivity].
           eapply float_lt_trans; eassumption.
        -- intros [H1 H2]. apply andb_true_iff in H2 as [H2 H3].
           right. apply Hstep; auto.
      * destruct (isnan u) eqn:Hu; cbn [negb forallb].
        -- now apply Hstep.
        -- rewrite (Hstep b Hb). split.
           ++ intros [H1 H2]. rewrite H2, andb_true_r. split; [assumption|].
              eapply float_lt_not_lt_trans; eassumption.
           ++ intros [H1 H2]. apply andb_true_iff in H2 as [_ H2]. auto.
Qed.

Lemma is_minimum_best_after vs : forall b,
  isnan b = false -> is_minimum (best_after b vs) (b :: filter not_nan vs).
Proof.
  induction vs as [|v vs IH]; intros b Hb.
  - cbn. split; [now left|]. intros x [<-|[]]. now apply float_le_refl.
  - cbn [best_after fold_left filter].
    set (b' := if float_lt v b then v else b).
    assert (Hb' : isnan b' = false).
    { unfold b'. destruct (float_lt v b) eqn:E; [|assumption].
      eapply float_lt_not_nan, E. }
    assert (Hle : float_le b' b = true).
    { unfold b'. destruct (float_lt v b) eqn:E;
        [now apply float_lt_le | now apply float_le_refl]. }
    assert (Hv : isnan v = false -> float_le b' v = true).
    { intros Hn. unfold b'. destruct (float_lt v b) eqn:E;
        [now apply float_le_refl | now apply float_not_lt_le]. }
    destruct (IH b' Hb') as [Hin Hall]. fold (best_after b' vs) in *.
    assert (Hm : float_le (best_after b' vs) b' = true)
      by (apply Hall; now left).
    split.
    + destruct Hin as [Hin|Hin].
      * rewrite <- Hin. unfold b', not_nan.
        destruct (float_lt v b) eqn:E; [|now left].
        rewrite (float_lt_not_nan _ _ E). right. now left.
      * right. destruct (not_nan v); [right|]; assumption.
    + intros x [<-|Hx].
      * eapply float_le_trans; eassumption.
      * unfold not_nan at 1 in Hx. destruct (isnan v) eqn:Hn; cbn in Hx.
        -- apply Hall. now right.
        -- destruct Hx as [<-|Hx]; [|apply Hall; now right].
           eapply float_le_trans; [exact Hm|now apply Hv].
Qed.

Lemma last_of_cons i l :
  last_of (i :: l) = match last_of l with Some j => Some j | None => Some i end.
Proof.
  unfold last_of. cbn [rev]. destruct (rev l); reflexivity.
Qed.

Lemma last_of_app l1 l2 :
  last_of (l1 ++ l2) =
  match last_of l2 with Some x => Some x | None => last_of l1 end.
Proof.
  induction l1 as [|i l1 IH]; cbn [app].
  - destruct (last_of l2); reflexivity.
  - rewrite !last_of_cons, IH. destruct (last_of l2); reflexivity.
Qed.

Lemma last_of_in l x : last_of l = Some x -> In x l.
Proof.
  induction l as [|i l IH]; [discriminate|].
  rewrite last_of_cons. destruct (last_of l) as [j|].
  - intros [= ->]. right. now apply IH.
  - intros [= ->]. now left.
Qed.

Lemma last_of_none l : last_of l = None -> l = [].
Proof.
  destruct l as [|i l]; [reflexivity|].
  rewrite last_of_cons. destruct (last_of l); discriminate.
Qed.

(** The last checkpoint is of an epoch whose loss is [best_loss]. *)
Lemma checkpoints_last ivs : forall b,
  match last_of (checkpoints b ivs) with
  | Some j => In (j, best_after b (map snd ivs)) ivs
  | None => best_after b (map snd ivs) = b
  end.
Proof.
  induction ivs as [|[i v] r IH]; intros b; [reflexivity|].
  cbn [checkpoints map snd].
  change (best_after b (v :: map snd r))
    with (best_after (if float_lt v b then v else b) (map snd r)).
  destruct (float_lt v b) eqn:E.
  - rewrite last_of_cons. specialize (IH v).
    destruct (last_of (checkpoints v r)) as [j|].
    + now right.
    + rewrite IH. now left.
  - specialize (IH b).
    destruct (last_of (checkpoints b r)) as [j|]; [now right|assumption].
Qed.

Lemma in_number j x vs : In (j, x) (number vs) -> nth_error vs j = Some x.
Proof.
  unfold number. replace j with (j - 0)%nat at 2 by lia.
  assert (G : forall off, In (j, x) (combine (seq off (List.length vs)) vs) ->
                          nth_error vs (j - off) = Some x /\ (off <= j)%nat).
  { induction vs as [|v vs IH]; intros off; cbn; [tauto|].
    intros [[= <- <-]|H].
    - rewrite Nat.sub_diag. split; [reflexivity|lia].
    - apply IH in H as [H1 H2]. split; [|lia].
      replace (j - off)%nat with (S (j - S off)) by lia. exact H1. }
  intros H. now apply G in H.
Qed.

Section Returned.

Context {C : components}.

Lemma train_returned a now (s : @state C) b s' :
  train a now s = (Returned b, s') ->
  exists env, train_upto None a now s = (Returned (env, b), s').
Proof.
  intros H. apply train_as_upto in H as (o' & E & Ho).
  destruct o' as [[env b']|e]; [|discriminate].
  injection Ho as ->. now exists env.
Qed.

Lemma num_epochs_of_fun fs a n n' :
  num_epochs_of C fs a n -> num_epochs_of C fs a n' -> n = n'.
Proof.
  intros (raw & cfg & tr & v & [R L] & T & V & I)
         (raw' & cfg' & tr' & v' & [R' L'] & T' & V' & I').
  congruence.
Qed.

End Returned.



Lemma log_view_loop out b results :
  log_view (loop_events out b results) =
  flat_map (fun r => [ev_train (fst r) (fst (snd r));
                      ev_test (fst r) (snd (snd r));
                      ev_append (training_log out) (result_row r)]) results.
Proof.
  revert b. induction results as [|[i [t v]] rs IH]; intros b; [reflexivity|].
  cbn [loop_events]. unfold log_view in *. rewrite filter_app, IH.
  unfold epoch_events. destruct (float_lt v b); reflexivity.
Qed.

Lemma combine_columns (results : list (nat * (float * float))) :
  combine (map fst results)
    (combine (map (fun r => fst (snd r)) results)
             (map (fun r => snd (snd r)) results)) = results.
Proof.
  induction results as [|[i [t v]] rs IH]; cbn; [reflexivity|].
  now rewrite IH.
Qed.

Lemma map_snd_number vs : map snd (number vs) = vs.
Proof.
  unfold number. generalize 0%nat.
  induction vs as [|v vs IH]; intros off; cbn; [reflexivity|].
  now rewrite IH.
Qed.

Lemma saved_above b (rest : list (nat * (float * float))) j N i :
  map fst rest = skipn (S j) (seq 0 N) ->
  In i (checkpoints b (map result_test rest)) -> (j < i)%nat.
Proof.
  intros Hi H. apply checkpoints_incl in H.
  rewrite map_map in H. cbn [fst result_test] in H.
  change (map (fun x => fst x) rest) with (map fst rest) in H.
  rewrite Hi, skipn_seq in H. apply in_seq in H. lia.
Qed.

Lemma firstn_prefix {X} (A B : list X) k :
  (List.length A <= k)%nat -> ((List.length A < k)%nat -> B = []) ->
  firstn k (A ++ B) = A.
Proof.
  intros H1 H2. rewrite firstn_app, firstn_all2 by assumption.
  destruct (Nat.eq_dec (List.length A) k) as [E|E].
  - rewrite E, Nat.sub_diag. cbn. apply app_nil_r.
  - rewrite H2 by lia. rewrite firstn_nil. apply app_nil_r.
Qed.

(** The rows of the first [k] epochs are the first [k] rows. *)
Lemma rows_prefix (done rest : list (nat * (float * float))) k N :
  map fst done = firstn k (seq 0 N) ->
  map fst rest = skipn k (seq 0 N) ->
  firstn k (rows (seq 0 N)
              (map (fun r => fst (snd r)) done ++ map (fun r => fst (snd r)) rest)
              (map (fun r => snd (snd r)) done ++ map (fun r => snd (snd r)) rest))
  = map result_row done.
Proof.
  intros Hd Hr. unfold rows.
  assert (L : List.length done = Nat.min k N).
  { rewrite <- (length_map fst), Hd, firstn_seq_prefix. apply length_seq. }
  assert (E : (List.length done < k)%nat -> rest = []).
  { intros Hlt. apply map_eq_nil with (f := fst). rewrite Hr, skipn_seq.
    replace (N - k)%nat with 0%nat by lia. reflexivity. }
  rewrite firstn_map, !combine_firstn, <- Hd.
  rewrite !firstn_prefix.
  - now rewrite combine_columns.
  - rewrite length_map. lia.
  - intros Hlt. rewrite length_map in Hlt. now rewrite (E Hlt).
  - rewrite length_map. lia.
  - intros Hlt. rewrite length_map in Hlt. now rewrite (E Hlt).
Qed.

Section Prefixes.

Context {C : components}.

Lemma best_loss_of_run limit a now fs (w : World C) env b s' :
  train_upto limit a now (initial fs w) = (Returned (env, b), s') ->
  b = best_after float_inf (validation_losses (st_trace s')).
Proof.
  intros H. run_spec H as S.
  destruct S as (_ & k & bs & d & m & l & op & dev & results & Htr & _ & _ & _
                 & _ & _ & _ & _ & Hb & _).
  rewrite Htr, validation_losses_app, validation_losses_loop.
  unfold validation_losses. now rewrite tests_setup.
Qed.

(** A run that returns has gone through the state after [k] iterations,
    and from there has logged whole iterations only. *)
Lemma run_prefix limit k a now fs (w : World C) env b s' :
  let out := output_path a now in
  (forall l : list nat, firstn k (bounded limit l) = firstn k l) ->
  train_upto limit a now (initial fs w) = (Returned (env, b), s') ->
  exists bk sk n rest,
    train_upto (Some k) a now (initial fs w) = (Returned (env, bk), sk) /\
    as_index (env_num_epochs env) = inr n /\
    st_trace s' = st_trace sk ++ loop_events out bk rest /\
    map fst rest = skipn k (bounded limit (range n)) /\
    b = best_after bk (map (fun r => snd (snd r)) rest) /\
    (checkpoints bk (map result_test rest) = [] ->
     node_at (st_fs s') (model_pt out) = node_at (st_fs sk) (model_pt out)).
Proof.
  intros out Hk H.
  destruct (train_upto_split limit k a now _ Hk H) as (bk & sk & n & Ek & Hn & Er).
  exists bk, sk, n. run_spec Ek as S. fold out in S.
  destruct S as (_ & k0 & bs & d & m & l & op & dev & results & _ & _ & _ & _
                 & _ & Hout & _ & _ & _ & R & L & _).
  rewrite <- Hout in R, L.
  pose proof (epoch_loop_spec env (skipn k (bounded limit (range n))) bk sk R L)
    as S.
  unfold wp in S. rewrite Er in S. cbn [fst snd] in S. rewrite Hout in S.
  destruct S as (rest & Htr & _ & _ & _ & _ & Hi & Hb & Hm).
  exists rest. auto 10.
Qed.

Lemma bounded_none k l : firstn k (bounded None l) = firstn k l.
Proof. reflexivity. Qed.

Lemma bounded_some j k l :
  (j <= k)%nat -> firstn j (bounded (Some k) l) = firstn j l.
Proof.
  intros H. cbn [bounded]. rewrite firstn_firstn. f_equal. lia.
Qed.

(** The checkpoints a run has saved in its first [j] iterations are of
    epochs before [j]. *)
Lemma saved_below j a now fs (w : World C) env b0 s0 i :
  train_upto (Some j) a now (initial fs w) = (Returned (env, b0), s0) ->
  In i (saved_epochs (st_trace s0)) -> (i < j)%nat.
Proof.
  intros E0 H. run_spec E0 as S.
  destruct S as (_ & k & bs & d & m & l & op & dev & results & Htr & _ & _ & _
                 & _ & _ & _ & (n & _ & _ & Hi) & _).
  rewrite Htr in H. unfold saved_epochs in H. rewrite flat_map_app in H.
  fold (saved_epochs (loop_events (output_path a now) float_inf results)) in H.
  rewrite saved_epochs_loop in H.
  rewrite (flat_map_firstn_nil _ _ k) in H by reflexivity. cbn [app] in H.
  apply checkpoints_incl in H. rewrite map_map in H.
  change (map (fun x => fst (result_test x)) results) with (map fst results) in H.
  rewrite Hi in H. cbn [bounded] in H. unfold range in H.
  rewrite firstn_seq_prefix in H. apply in_seq in H. lia.
Qed.

(** The iteration [j] of a run that returns, between the states after
    [j] and after [S j] iterations. *)
Lemma run_epoch j a now fs (w : World C) env bj sj n :
  let out := output_path a now in
  train_upto (Some (S j)) a now (initial fs w) = (Returned (env, bj), sj) ->
  as_index (env_num_epochs env) = inr n ->
  (j < Z.to_nat n)%nat ->
  exists b0 s0 v,
    train_upto (Some j) a now (initial fs w) = (Returned (env, b0), s0) /\
    saved_epochs (st_trace sj) =
      saved_epochs (st_trace s0) ++ (if float_lt v b0 then [j] else []) /\
    (float_lt v b0 = true ->
     node_at (st_fs sj) (model_pt out) =
       Some (File (save_bytes C (jit_script C (env_model env) (st_world sj))))).
Proof.
  intros out Ej Hn Hj.
  destruct (train_upto_split (Some (S j)) j a now _
              (fun l => @bounded_some j (S j) l (Nat.le_succ_diag_r j)) Ej)
    as (b0 & s0 & n' & E0 & Hn' & Er).
  assert (n' = n) by congruence. subst n'.
  assert (Hone : skipn j (bounded (Some (S j)) (range n)) = [j]).
  { cbn [bounded]. unfold range. rewrite firstn_seq_prefix, skipn_seq.
    replace (Nat.min (S j) (Z.to_nat n) - j)%nat with 1%nat by lia.
    reflexivity. }
  rewrite Hone in Er. cbn [epoch_loop] in Er. unfold bind, ret in Er.
  destruct (epoch env j b0 s0) as [[b1|e] s1] eqn:Ee; [|discriminate].
  injection Er as -> ->.
  run_spec E0 as S. fold out in S.
  destruct S as (_ & k0 & bs & d & m & l & op & dev & results & _ & _ & _ & _
                 & _ & Hout & _ & _ & _ & R & L & _).
  rewrite <- Hout in R, L.
  pose proof (epoch_spec env j b0 s0 R L) as S.
  unfold wp in S. rewrite Ee in S. cbn [fst snd] in S. rewrite Hout in S.
  destruct S as (t & w1 & v & _ & _ & Htr & _ & _ & _ & _ & Hm).
  exists b0, s0, v. split; [exact E0|]. split.
  - rewrite Htr. unfold saved_epochs. rewrite flat_map_app. f_equal.
    destruct (float_lt v b0); reflexivity.
  - intros Hlt. now rewrite Hm, Hlt.
Qed.

End Prefixes.

(** ** Nothing is deleted *)

Lemma keeps_refl fs : keeps fs fs.
Proof. intros q H. exact H. Qed.

Lemma keeps_trans fs1 fs2 fs3 : keeps fs1 fs2 -> keeps fs2 fs3 -> keeps fs1 fs3.
Proof. intros H12 H23 q H. apply H23, H12, H. Qed.

Lemma keeps_fs_set fs p n : keeps fs (fs_set fs p n).
Proof.
  intros q H. destruct q as [|c q]; [discriminate|].
  unfold node_at, fs_set in *. destruct (path_eqb (c :: q) p); [discriminate|].
  exact H.
Qed.

Lemma mkdir_keeps fs p fs' : mkdir_parents_exist_ok fs p = inr fs' -> keeps fs fs'.
Proof.
  intros H. apply mkdir_returns in H as [G _]. intros q Hq.
  now rewrite (grows_kept _ G Hq).
Qed.

Lemma write_file_keeps fs p d fs' : write_file fs p d = inr fs' -> keeps fs fs'.
Proof.
  unfold write_file. destruct (open_for_writing fs p); [discriminate|].
  intros [= <-]. apply keeps_fs_set.
Qed.

Lemma append_file_keeps fs p d fs' : append_file fs p d = inr fs' -> keeps fs fs'.
Proof.
  unfold append_file. destruct (open_for_writing fs p); [discriminate|].
  destruct (node_at fs p) as [[|c]|]; intros [= <-]; apply keeps_fs_set.
Qed.

Lemma jit_save_keeps fs p d fs' : jit_save fs p d = inr fs' -> keeps fs fs'.
Proof.
  unfold jit_save. destruct (write_file fs p d) eqn:E; [discriminate|].
  intros [= <-]. eapply write_file_keeps, E.
Qed.

Lemma copyfile_keeps fs src dst fs' : copyfile fs src dst = inr fs' -> keeps fs fs'.
Proof.
  intros H. apply copyfile_returns in H as (raw & _ & H).
  eapply write_file_keeps, H.
Qed.

Ltac kept :=
  repeat match goal with
  | H : mkdir_parents_exist_ok _ _ = inr _ |- _ => apply mkdir_keeps in H
  | H : copyfile _ _ _ = inr _ |- _ => apply copyfile_keeps in H
  | H : write_file _ _ _ = inr _ |- _ => apply write_file_keeps in H
  | H : append_file _ _ _ = inr _ |- _ => apply append_file_keeps in H
  | H : jit_save _ _ _ = inr _ |- _ => apply jit_save_keeps in H
  end;
  eauto 6 using keeps_refl, keeps_trans.

Section Kept.

Context {C : components}.

Lemma epoch_loop_keeps (env : @run_env C) indices b s :
  wp (epoch_loop env indices b) (fun _ s' => keeps (st_fs s) (st_fs s')) s.
Proof.
  revert b s. induction indices as [|i rest IH]; intros b s; cbn [epoch_loop].
  - apply wp_ret. apply keeps_refl.
  - unfold epoch. repeat wp_step.
    all: try (eapply wp_mono; [apply IH|]; cbn [st_fs]; intros _ s' K).
    all: kept.
Qed.

Lemma train_keeps a now fs (w : World C) :
  keeps fs (st_fs (snd (train a now (initial fs w)))).
Proof.
  change (wp (train a now) (fun _ s' => keeps fs (st_fs s')) (initial fs w)).
  unfold train, setup, epochs.
  repeat wp_step.
  all: cbn [initial st_fs st_world st_trace] in *.
  all: try (eapply wp_mono; [apply epoch_loop_keeps|];
            cbn [st_fs]; intros _ s' K).
  all: kept.
Qed.

End Kept.

(** ** When the script returns *)

Lemma grows_read_file_kept fs fs' p raw :
  grows fs fs' -> read_file fs p = inr raw -> read_file fs' p = inr raw.
Proof.
  intros G. unfold read_file. rewrite (grows_blocked p G).
  destruct (blocked fs p); [discriminate|].
  destruct (node_at fs p) as [[|c]|] eqn:E; try discriminate.
  intros [= <-]. rewrite (grows_kept _ G) by congruence. now rewrite E.
Qed.

Lemma copyfile_ready_returns fs out x src raw :
  ready fs out -> read_file fs src = inr raw -> src <> joinpath out x ->
  node_at fs (joinpath out x) <> Some Dir ->
  copyfile fs src (joinpath out x) =
  inr (fs_set fs (joinpath out x) (File raw)).
Proof.
  intros R Hr N D. unfold copyfile.
  rewrite (path_eqb_neq N), Hr. cbn. now apply write_file_returns.
Qed.

Section Returns.

Context {C : components}.

Variables (a : args) (now : string) (fs : filesystem) (w : World C).
Variables (raw : list byte) (cfg bs d m l op v : toml) (n : Z).

Let out := output_path a now.

Hypothesis passes : guard fs a now = false.
Hypothesis resolves : blocked fs out = false.
Hypothesis no_file : is_file (node_at fs out) = false.
Hypothesis readable : configured C fs a raw cfg.
Hypothesis elsewhere : config a <> config_copy out.
Hypothesis copy_free : node_at fs (config_copy out) <> Some Dir.
Hypothesis log_free : node_at fs (training_log out) <> Some Dir.
Hypothesis model_free : node_at fs (model_pt out) <> Some Dir.
Hypothesis complete : sections cfg bs d m l op v.
Hypothesis countable : as_index v = inr n.

Lemma setup_returns :
  exists env s1, setup a now (initial fs w) = (Returned env, s1).
Proof.
  cut (wp (setup a now) (fun o _ => exists env, o = Returned env) (initial fs w)).
  { unfold wp. destruct (setup a now (initial fs w)) as [o s1].
    cbn. intros [env ->]. eauto. }
  destruct readable as [Hread Hload].
  destruct complete as (training & S1 & S2 & S3 & S4 & S5 & S6 & S7).
  unfold guard in passes.
  unfold setup. unfold out in *.
  repeat wp_step.
  all: cbn [initial st_fs st_world st_trace] in *.
  all: try match goal with H : inr _ = inl _ |- _ => discriminate H end.
  all: try match goal with H : inr _ = inr _ |- _ => injection H as <- end.
  all: try congruence.
  all: try match goal with
       | H : mkdir_parents_exist_ok _ _ = inl _ |- _ =>
           apply mkdir_raises in H;
           destruct H as [[_ ?]|(_ & _ & ?)]; congruence
       end.
  all: match goal with
       | H : mkdir_parents_exist_ok _ _ = inr _ |- _ =>
           pose proof (@mkdir_child _ _ _ "config.toml" H) as Kc;
           pose proof (@mkdir_child _ _ _ "training_log.csv" H) as Kl;
           apply mkdir_returns in H; destruct H as [G R];
           pose proof (grows_read_file_kept _ G Hread) as Hread'
       end.
  all: try congruence.
  all: try match goal with
       | H : match tomllib_load ?C ?r with _ => _ end = _ |- _ =>
           replace r with raw in * by congruence; rewrite Hload in H;
           first [discriminate H | injection H as <-]
       end.
  all: try congruence.
  all: try match goal with
       | H : copyfile _ _ _ = _ |- _ =>
           unfold config_copy in *;
           rewrite (copyfile_ready_returns _ R Hread' elsewhere) in H
             by congruence;
           try discriminate H; injection H as <-
       end.
  all: try congruence.
  all: try match goal with
       | H : write_file _ _ _ = inl _ |- _ =>
           unfold training_log in *;
           rewrite write_file_returns in H;
           [discriminate H
           | now apply ready_fs_set
           | rewrite node_at_fs_set_other
               by (apply not_eq_sym, joinpath_neq; discriminate);
             congruence]
       end.
  all: eauto.
Qed.

Lemma train_returns :
  exists b s', train a now (initial fs w) = (Returned b, s').
Proof.
  destruct setup_returns as (env & s1 & E).
  pose proof (setup_spec a now fs w) as S. cbv zeta in S. unfold wp in S.
  rewrite E in S. cbn [fst snd] in S. fold out in S.
  destruct S as (_ & Hmp & k & bs' & d' & m' & l' & op' & dev & _ & _
                 & _ & Hout & R & L & raw' & cfg' & Hc & Hs).
  assert (Hv : env_num_epochs env = v).
  { destruct readable as [R1 L1], Hc as [R2 L2].
    assert (raw' = raw) by congruence. subst raw'.
    assert (cfg' = cfg) by congruence. subst cfg'.
    destruct complete as (t1 & S1 & _ & S3 & _).
    destruct Hs as (t2 & T1 & _ & T3 & _). congruence. }
  unfold train, bind. rewrite E. unfold epochs, bind, lift.
  rewrite Hv, countable. cbn [ret].
  rewrite <- Hout in R, L.
  pose proof (epoch_loop_spec env (range n) float_inf s1 R L) as S.
  unfold wp in S.
  destruct (epoch_loop env (range n) float_inf s1) as [[b|e] s2]; [eauto|].
  cbn [fst snd] in S. destruct S as (_ & _ & _ & _ & _ & _ & _ & Hd).
  rewrite Hout, Hmp in Hd. contradiction.
Qed.

End Returns.

Lemma in_prefixes_self (p : path) : p <> [] -> In p (prefixes p).
Proof.
  intros H. rewrite (prefixes_parent H). apply in_or_app. right. now left.
Qed.

Lemma flat_map_map {A B X} (g : A -> B) (f : B -> list X) l :
  flat_map f (map g l) = flat_map (fun x => f (g x)) l.
Proof. induction l as [|x l IH]; cbn; [reflexivity|now rewrite IH]. Qed.

(** * The claims *)

Unset Implicit Arguments.

(** C5, amended.  The guard of lines 34-37 raises [FileExistsError]
    when the output path exists and [--force] was not given, and then
    nothing at all has been done; when the path does not exist or
    [--force] was given the script goes on to [mkdir].  The guard is not
    the only source of the exception: on a regular file at the output
    path the run ends with [FileExistsError] with or without [--force],
    since [mkdir] with [exist_ok=True] accepts a directory only.  When
    the output path and each of its ancestors is absent or is a
    directory, the run ends with [FileExistsError] exactly when the path
    exists and [--force] was not given.  Whenever the run ends with
    [FileExistsError] the file system is as it was. *)
Theorem existence_check (C : components) (a : args) (now : string)
  (fs : filesystem) (w : World C) :
  let out := output_path a now in
  let run := train a now (initial fs w) in
  (path_exists fs out = true -> force a = false ->
   run = (Raised FileExistsError, initial fs w)) /\
  (path_exists fs out = false \/ force a = true ->
   exists tr, st_trace (snd run) = ev_mkdir out :: tr) /\
  (blocked fs out = false -> is_file (node_at fs out) = true ->
   fst run = Raised FileExistsError) /\
  (Forall (fun q => node_at fs q = None \/ node_at fs q = Some Dir)
     (prefixes out) ->
   (fst run = Raised FileExistsError <->
    path_exists fs out = true /\ force a = false)) /\
  (fst run = Raised FileExistsError -> st_fs (snd run) = fs).
Proof.
  intros out run. subst run.
  pose proof (train_guard a now fs w) as G. cbv zeta in G. unfold wp in G.
  fold out in G. unfold guard in G. fold out in G.
  destruct (train a now (initial fs w)) as [o s']. cbn [fst snd] in *.
  destruct G as (A & B & G1 & G0).
  split; [|split; [|split; [|split]]].
  - intros He Hf. rewrite He, Hf in G1. rewrite (G1 eq_refl).
    f_equal. apply A. auto.
  - intros H. apply G0. destruct H as [->| ->]; [reflexivity|].
    apply andb_false_r.
  - intros Hb Hf. apply A. split; [now apply path_exists_file|now right].
  - intros Hp. rewrite A.
    assert (Hn : is_file (node_at fs out) = false).
    { destruct out as [|c r] eqn:Eo; [reflexivity|].
      rewrite Forall_forall in Hp.
      destruct (Hp (c :: r)) as [-> | ->]; try reflexivity.
      apply in_prefixes_self. discriminate. }
    rewrite Hn. intuition discriminate.
  - exact B.
Qed.

Lemma existence_check_witness :
  let fs := demo_fs_dir [x00] in
  train (C:=demo) (demo_args false) "now" (initial (C:=demo) fs [float_one])
  = (Raised FileExistsError, initial (C:=demo) fs [float_one]).
Proof.
  intros fs.
  refine (proj1 (existence_check demo (demo_args false) "now" fs [float_one])
            _ _); reflexivity.
Defined.

(** C5 as written fails: with [--force] and a regular file at the output
    path the script raises [FileExistsError] and writes nothing, although
    [--force] was given. *)
Lemma existence_check_counterexample :
  let fs := demo_fs_file [] in
  let run := train (C:=demo) (demo_args true) "now" (initial (C:=demo) fs []) in
  ~ ((fst run = Raised FileExistsError /\ st_fs (snd run) = fs) <->
     (path_exists fs ["out"] = true /\ force (demo_args true) = false)).
Proof.
  intros fs run [H _].
  assert (E : fst run = Raised FileExistsError /\ st_fs (snd run) = fs)
    by (split; reflexivity).
  apply H in E as [_ F]. discriminate F.
Qed.

(** C8.  With [--force] on an existing output directory, [mkdir] leaves
    the file system as it is, and whatever the run does afterwards,
    nothing that was there is missing at the end, and every file or
    directory that was there, other than [config.toml],
    [training_log.csv] and [model.pt] of the output directory, is
    unchanged. *)
Theorem force_keeps_files (C : components) (a : args) (now : string)
  (fs : filesystem) (w : World C) :
  let out := output_path a now in
  force a = true ->
  blocked fs out = false ->
  node_at fs out = Some Dir ->
  mkdir_parents_exist_ok fs out = inr fs /\
  keeps fs (st_fs (snd (train a now (initial fs w)))) /\
  forall q,
    node_at fs q <> None ->
    q <> config_copy out -> q <> training_log out -> q <> model_pt out ->
    node_at (st_fs (snd (train a now (initial fs w)))) q = node_at fs q.
Proof.
  intros out F B D. split; [|split].
  - unfold mkdir_parents_exist_ok. now rewrite B, D.
  - apply train_keeps.
  - rewrite train_unbounded. cbn [snd].
    apply (train_upto_spec None a now fs w).
Qed.

Lemma force_keeps_files_witness :
  node_at
    (st_fs (snd (train (C:=demo) (demo_args true) "now"
                   (initial (C:=demo) (demo_fs_dir [x00; x00])
                      [float_two; float_one; float_one; float_two]))))
    ["out"; "notes.txt"] = Some (File [x68; x69]).
Proof.
  apply (proj2 (proj2 (force_keeps_files demo (demo_args true) "now"
                         (demo_fs_dir [x00; x00])
                         [float_two; float_one; float_one; float_two]
                         eq_refl eq_refl eq_refl)));
    discriminate.
Defined.

(** C2.  For any two runs, of any components, arguments and file
    systems and whatever their outcomes: if the epochs produce the same
    sequence of validation losses, [save] is called at the same epochs,
    whatever the training losses are. *)
Theorem checkpoint_decision
  (C1 : components) (a1 : args) (now1 : string) (fs1 : filesystem) (w1 : World C1)
  (C2 : components) (a2 : args) (now2 : string) (fs2 : filesystem) (w2 : World C2) :
  let tr1 := st_trace (snd (train a1 now1 (initial fs1 w1))) in
  let tr2 := st_trace (snd (train a2 now2 (initial fs2 w2))) in
  validation_losses tr1 = validation_losses tr2 ->
  saved_epochs tr1 = saved_epochs tr2.
Proof.
  intros tr1 tr2 H. subst tr1 tr2.
  destruct (train a1 now1 (initial fs1 w1)) as [o1 s1] eqn:E1.
  destruct (train a2 now2 (initial fs2 w2)) as [o2 s2] eqn:E2.
  apply train_as_upto in E1 as (o1' & E1 & _).
  apply train_as_upto in E2 as (o2' & E2 & _).
  cbn [snd] in *.
  rewrite (saved_from_losses _ _ _ _ _ E1), (saved_from_losses _ _ _ _ _ E2).
  now rewrite H.
Qed.

Lemma checkpoint_decision_witness :
  saved_epochs
    (st_trace (snd (train (C:=demo) (demo_args false) "now"
                      (initial (C:=demo) (demo_fs [x00; x00])
                         [float_two; float_one; float_one; float_two])))) =
  saved_epochs
    (st_trace (snd (train (C:=demo) (demo_args true) "now"
                      (initial (C:=demo) (demo_fs_dir [x00; x00])
                         [float_one; float_one; float_two; float_two])))).
Proof.
  apply (checkpoint_decision demo (demo_args false) "now" (demo_fs [x00; x00])
           [float_two; float_one; float_one; float_two]
           demo (demo_args true) "now" (demo_fs_dir [x00; x00])
           [float_one; float_one; float_two; float_two]).
  vm_compute. reflexivity.
Defined.





(** C9.  When [config["training"]["num_epochs"]] is 0, a run that returns
    leaves in [training_log.csv] the header row only, has called neither
    [train_one_epoch] nor [test_one_epoch], has not called [save], and
    leaves [model.pt] as it was before the run (absent, if it was). *)
Theorem zero_epochs (C : components) (a : args) (now : string)
  (fs : filesystem) (w : World C) (b : float) (s' : state) :
  let out := output_path a now in
  train a now (initial fs w) = (Returned b, s') ->
  num_epochs_of C fs a 0 ->
  node_at (st_fs s') (training_log out) = Some (File (csv_row C header)) /\
  loop_calls (st_trace s') = [] /\
  saved_epochs (st_trace s') = [] /\
  node_at (st_fs s') (model_pt out) = node_at fs (model_pt out).
Proof.
  intros out H Hz. apply train_returned in H as [env H]. run_spec H as S.
  destruct S as (_ & k & bs & d & m & l & op & dev & results & Htr & _ & _ & _
                 & -> & _ & _ & (n & Hn & _ & Hi) & _ & _ & Hlog & Hmp).
  rewrite (num_epochs_of_fun Hn Hz) in Hi. cbn in Hi.
  apply map_eq_nil in Hi. subst results. cbn in *.
  rewrite app_nil_r in *. rewrite Htr. repeat split; auto.
Qed.

Lemma zero_epochs_witness :
  let s' := snd (train (C:=demo) (demo_args false) "now"
                   (initial (C:=demo) (demo_fs []) [float_two; float_one])) in
  node_at (st_fs s') ["out"; "training_log.csv"] =
    Some (File (csv_row demo header)) /\
  loop_calls (st_trace s') = [] /\
  saved_epochs (st_trace s') = [] /\
  node_at (st_fs s') ["out"; "model.pt"] = None.
Proof.
  eapply (zero_epochs demo (demo_args false) "now" (demo_fs [])
            [float_two; float_one] float_inf).
  - vm_compute. reflexivity.
  - exists [], (demo_config 0), (TTable [("batch_size", TInt 32); ("num_epochs", TInt 0);
              ("loss", TStr "mse");
              ("optimizer", TTable [("name", TStr "adam")])]), (TInt 0).
    repeat split.
Defined.


(** The log of a run that returns, in terms of [header] and [rows]. *)
Lemma log_rows (C : components) (a : args) (now : string)
  (fs : filesystem) (w : World C) (b : float) (s' : state) :
  let out := output_path a now in
  let ts := training_losses (st_trace s') in
  let vs := validation_losses (st_trace s') in
  train a now (initial fs w) = (Returned b, s') ->
  exists n,
    num_epochs_of C fs a n /\
    List.length ts = Z.to_nat n /\
    List.length vs = Z.to_nat n /\
    log_view (st_trace s') =
      ev_write (training_log out) header
      :: flat_map (fun r => [ev_train (fst r) (fst (snd r));
                             ev_test (fst r) (snd (snd r));
                             ev_append (training_log out) (result_row r)])
           (combine (range n) (combine ts vs)) /\
    node_at (st_fs s') (training_log out) =
      Some (File (csv_row C header
                  ++ flat_map (csv_row C) (rows (range n) ts vs))) /\
    forall k, exists env bk sk,
      train_upto (Some k) a now (initial fs w) = (Returned (env, bk), sk) /\
      node_at (st_fs sk) (training_log out) =
        Some (File (csv_row C header
                    ++ flat_map (csv_row C) (firstn k (rows (range n) ts vs)))).
Proof.
  intros out ts vs H. subst ts vs.
  apply train_returned in H as [env H]. run_spec H as S. fold out in S.
  destruct S as (_ & k & bs & d & m & l & op & dev & results & Htr & _ & _ & _
                 & -> & _ & _ & (n & Hn & Ha & Hi) & _ & _ & Hlog & _).
  cbn [bounded] in Hi.
  assert (Hts : training_losses (st_trace s') =
                map (fun r => fst (snd r)) results).
  { rewrite Htr. unfold training_losses. rewrite flat_map_app.
    apply training_losses_loop. }
  assert (Hvs : validation_losses (st_trace s') =
                map (fun r => snd (snd r)) results).
  { rewrite Htr, validation_losses_app. apply validation_losses_loop. }
  assert (Hlen : List.length results = Z.to_nat n).
  { rewrite <- (length_map fst), Hi. unfold range. apply length_seq. }
  exists n. rewrite Hts, Hvs, !length_map.
  split; [exact Hn|]. split; [exact Hlen|]. split; [exact Hlen|].
  split; [|split].
  - rewrite <- Hi, combine_columns, Htr. unfold log_view. rewrite filter_app.
    fold (log_view (loop_events out float_inf results)).
    now rewrite log_view_loop.
  - rewrite Hlog. unfold rows. rewrite <- Hi, combine_columns.
    now rewrite flat_map_concat_map, flat_map_concat_map, map_map.
  - intros k'.
    destruct (@run_prefix C None k' a now fs w env b s' (bounded_none k') H)
      as (bk & sk & n1 & rest & Ek & Hn1 & Htrk & Hik & _).
    fold out in Htrk. cbn [bounded] in Hik.
    exists env, bk, sk. split; [exact Ek|].
    run_spec Ek as S. fold out in S.
    destruct S as (_ & k0 & bs' & d' & m' & l' & op' & dev' & done & Htrd & _
                   & _ & _ & -> & _ & _ & (n2 & Hn2 & Ha2 & Hid) & _ & _
                   & Hlogd & _).
    cbn [bounded] in Hid.
    assert (n1 = n2) by congruence. subst n1.
    assert (n2 = n) by (eapply num_epochs_of_fun; eassumption). subst n2.
    assert (Et : map (fun r => fst (snd r)) results =
                 map (fun r => fst (snd r)) done
                 ++ map (fun r => fst (snd r)) rest).
    { rewrite <- Hts, Htrk. unfold training_losses. rewrite flat_map_app.
      fold (training_losses (st_trace sk)).
      fold (training_losses (loop_events out bk rest)).
      rewrite training_losses_loop. f_equal.
      rewrite Htrd. unfold training_losses. rewrite flat_map_app.
      apply training_losses_loop. }
    assert (Ev : map (fun r => snd (snd r)) results =
                 map (fun r => snd (snd r)) done
                 ++ map (fun r => snd (snd r)) rest).
    { rewrite <- Hvs, Htrk, validation_losses_app, validation_losses_loop.
      f_equal. rewrite Htrd, validation_losses_app.
      apply validation_losses_loop. }
    rewrite Hlogd, Et, Ev. unfold range in *.
    rewrite (rows_prefix done rest k' (Z.to_nat n) Hid Hik).
    now rewrite flat_map_concat_map, flat_map_concat_map, map_map.
Qed.

(** C4.  A run that returns has written the header row
    [["epoch", "training_loss", "validation_loss"]] to
    [training_log.csv], with mode ["w"], before the first epoch, and has
    appended after the two passes of every epoch [i] the one row
    [[i, train_loss, validation_loss]] of the two losses the passes
    returned; at the end the file holds the header followed by the rows
    of the epochs 0, ..., [num_epochs] - 1, in this order, and after [k]
    iterations it holds the header followed by the first [k] of these
    rows. *)
Theorem csv_log (C : components) (a : args) (now : string)
  (fs : filesystem) (w : World C) (b : float) (s' : state) :
  let out := output_path a now in
  let ts := training_losses (st_trace s') in
  let vs := validation_losses (st_trace s') in
  train a now (initial fs w) = (Returned b, s') ->
  exists n,
    num_epochs_of C fs a n /\
    List.length ts = Z.to_nat n /\
    List.length vs = Z.to_nat n /\
    log_view (st_trace s') =
      ev_write (training_log out)
        [CStr "epoch"; CStr "training_loss"; CStr "validation_loss"]
      :: flat_map (fun r => [ev_train (fst r) (fst (snd r));
                             ev_test (fst r) (snd (snd r));
                             ev_append (training_log out)
                               [CInt (Z.of_nat (fst r)); CFloat (fst (snd r));
                                CFloat (snd (snd r))]])
           (combine (seq 0 (Z.to_nat n)) (combine ts vs)) /\
    node_at (st_fs s') (training_log out) =
      Some (File
        (csv_row C [CStr "epoch"; CStr "training_loss"; CStr "validation_loss"]
         ++ flat_map (fun r => csv_row C [CInt (Z.of_nat (fst r));
                                          CFloat (fst (snd r));
                                          CFloat (snd (snd r))])
              (combine (seq 0 (Z.to_nat n)) (combine ts vs)))) /\
    forall k, exists env bk sk,
      train_upto (Some k) a now (initial fs w) = (Returned (env, bk), sk) /\
      node_at (st_fs sk) (training_log out) =
        Some (File
          (csv_row C [CStr "epoch"; CStr "training_loss"; CStr "validation_loss"]
           ++ flat_map (fun r => csv_row C [CInt (Z.of_nat (fst r));
                                            CFloat (fst (snd r));
                                            CFloat (snd (snd r))])
                (firstn k (combine (seq 0 (Z.to_nat n)) (combine ts vs))))).
Proof.
  intros out ts vs H.
  destruct (log_rows C a now fs w b s' H)
    as (n & Hn & Ht & Hv & Hview & Hlog & Hk).
  fold out in Hview, Hlog, Hk. fold ts vs in Ht, Hv, Hview, Hlog, Hk.
  exists n. split; [exact Hn|]. split; [exact Ht|]. split; [exact Hv|].
  split; [exact Hview|]. split.
  - rewrite Hlog. unfold rows. now rewrite flat_map_map.
  - intros k. destruct (Hk k) as (env & bk & sk & E & L).
    exists env, bk, sk. split; [exact E|].
    rewrite L. unfold rows. now rewrite firstn_map, flat_map_map.
Qed.

Lemma csv_log_witness :
  let fs := demo_fs [x00; x00] in
  let tape := [float_two; float_one; float_one; float_two] in
  let s' := snd (train (C:=demo) (demo_args false) "now"
                   (initial (C:=demo) fs tape)) in
  log_view (st_trace s') =
    [ev_write ["out"; "training_log.csv"]
       [CStr "epoch"; CStr "training_loss"; CStr "validation_loss"];
     ev_train 0 float_two; ev_test 0 float_one;
     ev_append ["out"; "training_log.csv"]
       [CInt 0; CFloat float_two; CFloat float_one];
     ev_train 1 float_one; ev_test 1 float_two;
     ev_append ["out"; "training_log.csv"]
       [CInt 1; CFloat float_one; CFloat float_two]] /\
  node_at (st_fs s') ["out"; "training_log.csv"] =
    Some (File [x73; x73; x73; x0a; x69; x66; x66; x0a; x69; x66; x66; x0a]).
Proof.
  intros fs tape s'.
  destruct (csv_log demo (demo_args false) "now" fs tape float_one s' eq_refl)
    as (n & Hn & Ht & _ & Hview & Hlog & _).
  assert (Hlen : Z.to_nat n = 2%nat)
    by (rewrite <- Ht; vm_compute; reflexivity).
  assert (n = 2) as -> by lia.
  split; [exact Hview | exact Hlog].
Defined.

(** C7, amended.  At every point of the loop a run reaches, after any
    number [k] of iterations and whether or not the run goes on to
    return, [best_loss] is the minimum of positive infinity and the
    validation losses of the completed epochs that are not NaN
    (positive infinity before the first epoch), and it is at most what
    it was at every earlier point of the loop.  When the run returns,
    every point of the loop has been reached, and the final [best_loss]
    is again that minimum and at most what it was at any of them. *)
Theorem best_loss_invariant (C : components) (a : args) (now : string)
  (fs : filesystem) (w : World C) :
  (forall k env bk sk,
     train_upto (Some k) a now (initial fs w) = (Returned (env, bk), sk) ->
     is_minimum bk
       (float_inf :: filter not_nan (validation_losses (st_trace sk))) /\
     forall j, (j <= k)%nat ->
       exists bj sj,
         train_upto (Some j) a now (initial fs w) = (Returned (env, bj), sj) /\
         float_le bk bj = true) /\
  (forall b s',
     train a now (initial fs w) = (Returned b, s') ->
     is_minimum b
       (float_inf :: filter not_nan (validation_losses (st_trace s'))) /\
     forall k, exists env bk sk,
       train_upto (Some k) a now (initial fs w) = (Returned (env, bk), sk) /\
       float_le b bk = true).
Proof.
  assert (M : forall limit env b s',
             train_upto limit a now (initial fs w) = (Returned (env, b), s') ->
             is_minimum b
               (float_inf :: filter not_nan (validation_losses (st_trace s')))).
  { intros limit env b0 s0 H0.
    rewrite (@best_loss_of_run C limit a now fs w env b0 s0 H0) at 1.
    now apply is_minimum_best_after. }
  assert (N : forall limit env b s',
             train_upto limit a now (initial fs w) = (Returned (env, b), s') ->
             isnan b = false).
  { intros limit env b0 s0 H0.
    rewrite (@best_loss_of_run C limit a now fs w env b0 s0 H0).
    now apply best_after_not_nan. }
  split.
  - intros k env bk sk Ek. split; [eapply M, Ek|].
    intros j Hjk.
    destruct (@run_prefix C (Some k) j a now fs w env bk sk
                (fun l => @bounded_some j k l Hjk) Ek)
      as (bj & sj & n' & rest' & Ej & _ & _ & _ & Hb' & _).
    exists bj, sj. split; [exact Ej|].
    rewrite Hb'. apply best_after_le. eapply N, Ej.
  - intros b s' H. apply train_returned in H as [env H].
    split; [eapply M, H|].
    intros k.
    destruct (@run_prefix C None k a now fs w env b s' (bounded_none k) H)
      as (bk & sk & n & rest & Ek & _ & _ & _ & Hb & _).
    exists env, bk, sk. split; [exact Ek|].
    rewrite Hb. apply best_after_le. eapply N, Ek.
Qed.

(** A run that ends with [RuntimeError] at the checkpoint of epoch 1
    has been at the head of the loop after one iteration, with
    [best_loss] still infinite after the NaN of epoch 0. *)
Lemma best_loss_invariant_witness :
  let fs := demo_fs_model_dir [x00; x00] in
  let tape := [float_two; float_nan; float_one; float_one] in
  fst (train (C:=demo) (demo_args true) "now" (initial (C:=demo) fs tape))
  = Raised RuntimeError /\
  exists env s1,
    train_upto (C:=demo) (Some 1%nat) (demo_args true) "now"
      (initial (C:=demo) fs tape) = (Returned (env, float_inf), s1) /\
    validation_losses (st_trace s1) = [float_nan] /\
    is_minimum float_inf
      (float_inf :: filter not_nan (validation_losses (st_trace s1))).
Proof.
  intros fs tape. split; [vm_compute; reflexivity|].
  assert (E : exists env s1,
             train_upto (C:=demo) (Some 1%nat) (demo_args true) "now"
               (initial (C:=demo) fs tape) = (Returned (env, float_inf), s1) /\
             validation_losses (st_trace s1) = [float_nan]).
  { do 2 eexists. split; [lazy; reflexivity|]. reflexivity. }
  destruct E as (env & s1 & E & Hv). exists env, s1.
  split; [exact E|]. split; [exact Hv|].
  exact (proj1 (proj1 (best_loss_invariant demo (demo_args true) "now" fs tape)
                  1%nat env float_inf s1 E)).
Defined.

(** C7 as written fails: after an epoch whose validation loss is NaN,
    [best_loss] is still positive infinity, which is not the minimum of
    the validation losses seen, with or without the initial value: no
    value is at or below NaN. *)
Lemma best_loss_invariant_counterexample :
  let run := train (C:=demo) (demo_args false) "now"
               (initial (C:=demo) (demo_fs [x00]) [float_one; float_nan]) in
  fst run = Returned float_inf /\
  validation_losses (st_trace (snd run)) = [float_nan] /\
  forall m, ~ is_minimum m [float_nan] /\
            ~ is_minimum m (float_inf :: [float_nan]).
Proof.
  split; [reflexivity|]. split; [reflexivity|].
  intros m. split; intros [_ H].
  - specialize (H float_nan (or_introl eq_refl)). destruct m; discriminate.
  - specialize (H float_nan (or_intror (or_introl eq_refl))).
    destruct m; discriminate.
Qed.

(** C1, amended.  In a run that returns, a checkpoint is saved to
    [model.pt] at the end of epoch [i] if and only if the validation loss
    of that epoch is strictly less than positive infinity and than every
    validation loss of the preceding epochs that is not NaN (a NaN loss
    saves nothing and is ignored by the later comparisons).  After the
    run [model.pt] holds the model as it was at the end of the last epoch
    that saved, whose validation loss is the final [best_loss]; when no
    epoch saved, [model.pt] is as it was before the run. *)
Theorem checkpoint_on_improvement (C : components) (a : args) (now : string)
  (fs : filesystem) (w : World C) (b : float) (s' : state) :
  let out := output_path a now in
  let tr := st_trace s' in
  let vs := validation_losses tr in
  train a now (initial fs w) = (Returned b, s') ->
  (forall i, (i < List.length vs)%nat ->
     (In i (saved_epochs tr) <-> below_numbers_before vs i = true)) /\
  (forall j, last_of (saved_epochs tr) = Some j ->
     nth_error vs j = Some b /\
     exists env bj sj,
       train_upto (Some (S j)) a now (initial fs w) = (Returned (env, bj), sj) /\
       node_at (st_fs s') (model_pt out) =
         Some (File (save_bytes C (jit_script C (env_model env) (st_world sj))))) /\
  (saved_epochs tr = [] ->
   node_at (st_fs s') (model_pt out) = node_at fs (model_pt out)).
Proof.
  intros out tr vs H. subst tr vs.
  apply train_returned in H as [env H].
  pose proof (saved_from_losses _ _ _ _ _ H) as Hsaved.
  split; [|split].
  - intros i Hi. rewrite Hsaved. unfold below_numbers_before.
    destruct (nth_error (validation_losses (st_trace s')) i) as [v|] eqn:Ev;
      [|apply nth_error_None in Ev; lia].
    cbn [forallb]. rewrite andb_true_iff.
    apply (@checkpoints_spec (validation_losses (st_trace s')) float_inf
             0%nat i v eq_refl Ev).
  - intros j Hj. split.
    + rewrite Hsaved in Hj.
      pose proof (@checkpoints_last
                    (number (validation_losses (st_trace s'))) float_inf) as Hl.
      rewrite Hj, map_snd_number in Hl. apply in_number in Hl.
      now rewrite (@best_loss_of_run C None a now fs w env b s' H).
    + destruct (@run_prefix C None (S j) a now fs w env b s'
                  (bounded_none (S j)) H)
        as (bj & sj & n & rest & Ej & Hn & Htr & Hi & _ & Hm).
      fold out in Htr, Hm. cbn [bounded] in Hi.
      assert (Hlt : (j < Z.to_nat n)%nat).
      { apply last_of_in in Hj. run_spec H as S.
        destruct S as (_ & k & bs & d & m & l & op & dev & results & Htr' & _
                       & _ & _ & _ & _ & _ & (n' & _ & Hn' & Hi') & _).
        rewrite Htr' in Hj. unfold saved_epochs in Hj.
        rewrite flat_map_app in Hj.
        fold (saved_epochs (loop_events (output_path a now) float_inf results))
          in Hj.
        rewrite saved_epochs_loop in Hj.
        rewrite (flat_map_firstn_nil _ _ k) in Hj by reflexivity.
        apply checkpoints_incl in Hj. rewrite map_map in Hj.
        change (map (fun x => fst (result_test x)) results)
          with (map fst results) in Hj.
        rewrite Hi' in Hj. cbn [bounded] in Hj.
        assert (n' = n) by congruence. subst n'.
        apply in_seq in Hj. lia. }
      destruct (@run_epoch C j a now fs w env bj sj n Ej Hn Hlt)
        as (b0 & s0 & v & E0 & Hsj & Hmp). fold out in Hmp.
      exists env, bj, sj. split; [exact Ej|].
      rewrite Htr in Hj. unfold saved_epochs in Hj. rewrite flat_map_app in Hj.
      fold (saved_epochs (st_trace sj)) in Hj.
      fold (saved_epochs (loop_events out bj rest)) in Hj.
      rewrite saved_epochs_loop, Hsj, last_of_app in Hj.
      destruct (last_of (checkpoints bj (map result_test rest))) as [x|] eqn:El.
      * injection Hj as ->. apply last_of_in in El.
        apply (@saved_above bj rest j (Z.to_nat n) j Hi) in El. lia.
      * apply last_of_none in El. rewrite (Hm El).
        rewrite last_of_app in Hj.
        destruct (float_lt v b0) eqn:Ev; [now apply Hmp|].
        cbn in Hj. apply last_of_in in Hj.
        apply (@saved_below C j a now fs w env b0 s0 j E0) in Hj. lia.
  - intros Hnone. run_spec H as S. fold out in S.
    destruct S as (_ & k & bs & d & m & l & op & dev & results & Htr & _ & _ & _
                   & _ & _ & _ & _ & _ & _ & _ & Hmp).
    apply Hmp. rewrite Htr in Hnone. unfold saved_epochs in Hnone.
    rewrite flat_map_app in Hnone.
    fold (saved_epochs (loop_events out float_inf results)) in Hnone.
    rewrite saved_epochs_loop in Hnone.
    now rewrite (flat_map_firstn_nil _ _ k) in Hnone by reflexivity.
Qed.


Lemma checkpoint_on_improvement_witness :
  let fs := demo_fs [x00; x00; x00] in
  let tape := [float_two; float_nan; float_one; float_two;
               float_one; float_one; float_two] in
  let s' := snd (train (C:=demo) (demo_args false) "now"
                   (initial (C:=demo) fs tape)) in
  let out := output_path (demo_args false) "now" in
  let tr := st_trace s' in
  let vs := validation_losses tr in
  (forall i, (i < List.length vs)%nat ->
     (In i (saved_epochs tr) <-> below_numbers_before vs i = true)) /\
  (forall j, last_of (saved_epochs tr) = Some j ->
     nth_error vs j = Some float_one /\
     exists env bj sj,
       train_upto (C:=demo) (Some (S j)) (demo_args false) "now"
         (initial (C:=demo) fs tape) = (Returned (env, bj), sj) /\
       node_at (st_fs s') (model_pt out) =
         Some (File (save_bytes demo
                       (jit_script demo (env_model env) (st_world sj))))) /\
  (saved_epochs tr = [] ->
   node_at (st_fs s') (model_pt out) = node_at fs (model_pt out)).
Proof.
  intros fs tape s'.
  refine (checkpoint_on_improvement demo (demo_args false) "now" fs tape
           float_one s' _).
  vm_compute. reflexivity.
Defined.

(** C1 as written fails: when the validation loss of epoch 0 is NaN and
    that of epoch 1 is 1.0, a checkpoint is saved at the end of epoch 1,
    although 1.0 is not strictly less than every validation loss of the
    preceding epochs: it is not less than NaN. *)
Lemma checkpoint_on_improvement_counterexample :
  let run := train (C:=demo) (demo_args false) "now"
               (initial (C:=demo) (demo_fs [x00; x00])
                  [float_two; float_nan; float_one; float_one]) in
  let tr := st_trace (snd run) in
  fst run = Returned float_one /\
  validation_losses tr = [float_nan; float_one] /\
  ~ (In 1%nat (saved_epochs tr) <->
     below_all_before (validation_losses tr) 1 = true).
Proof.
  split; [vm_compute; reflexivity|]. split; [vm_compute; reflexivity|].
  intros [H _]. assert (F : In 1%nat [1%nat]) by now left.
  apply H in F. vm_compute in F. discriminate F.
Qed.

(** * Further properties of the script *)

(** ** Where the script writes *)

Lemma copyfile_other fs src dst fs' q :
  copyfile fs src dst = inr fs' -> q <> dst -> node_at fs' q = node_at fs q.
Proof.
  intros H N. apply copyfile_returns in H as (raw & _ & H).
  exact (write_file_other fs raw H N).
Qed.

Lemma jit_save_other fs p d fs' q :
  jit_save fs p d = inr fs' -> q <> p -> node_at fs' q = node_at fs q.
Proof.
  unfold jit_save. destruct (write_file fs p d) eqn:E; [discriminate|].
  intros [= <-] N. exact (write_file_other fs d E N).
Qed.

Lemma mkdir_other fs p fs' q :
  mkdir_parents_exist_ok fs p = inr fs' -> ~ In q (prefixes p) ->
  node_at fs' q = node_at fs q.
Proof.
  unfold mkdir_parents_exist_ok. destruct (blocked fs p); [discriminate|].
  destruct (node_at fs p) as [[|c]|]; try discriminate; intros [= <-] N;
    [reflexivity|].
  now apply mkdir_fold_other.
Qed.

Lemma outside_outputs out q :
  ~ In q (outputs out) ->
  q <> config_copy out /\ q <> training_log out /\ q <> model_pt out.
Proof. unfold outputs. cbn. intuition congruence. Qed.

Ltac untouched :=
  repeat first
    [ erewrite jit_save_other; [|eassumption|assumption]
    | erewrite append_file_other; [|eassumption|assumption]
    | erewrite write_file_other; [|eassumption|assumption]
    | erewrite copyfile_other; [|eassumption|assumption] ];
  try reflexivity.

Section Writes.

Context {C : components}.

Lemma epoch_loop_touches (env : @run_env C) indices b s :
  wp (epoch_loop env indices b)
    (fun _ s' =>
       forall q, q <> training_log (env_output_dir env) ->
                 q <> model_pt (env_output_dir env) ->
                 node_at (st_fs s') q = node_at (st_fs s) q) s.
Proof.
  revert b s. induction indices as [|i rest IH]; intros b s; cbn [epoch_loop].
  - apply wp_ret. reflexivity.
  - unfold epoch. repeat wp_step.
    all: try (eapply wp_mono; [apply IH|]; cbn [st_fs]; intros _ s' K).
    all: intros q N1 N2; try rewrite K by assumption; untouched.
Qed.

(** Past [mkdir], the script writes its three files only. *)
Lemma train_after_mkdir a now fs (w : World C) :
  let out := output_path a now in
  wp (train a now)
    (fun _ s' =>
       match mkdir_parents_exist_ok fs out with
       | inl _ => st_fs s' = fs
       | inr fs1 =>
           (guard fs a now = true /\ st_fs s' = fs) \/
           (guard fs a now = false /\
            forall q, ~ In q (outputs out) ->
                      node_at (st_fs s') q = node_at fs1 q)
       end) (initial fs w).
Proof.
  intros out. unfold train, setup, epochs, guard. fold out.
  repeat wp_step.
  all: cbn [initial st_fs st_world st_trace env_output_dir] in *.
  all: try match goal with H : inr _ = inl _ |- _ => discriminate H end.
  all: match goal with H : inr _ = inr ?x |- _ => injection H as <- end.
  all: try (eapply wp_mono; [apply epoch_loop_touches|];
            cbn [st_fs env_output_dir]; intros _ s' K).
  all: try match goal with
       | H : mkdir_parents_exist_ok _ _ = inr _ |- _ =>
           rewrite H; right; split; [assumption|];
           intros q Hq; apply outside_outputs in Hq as (N1 & N2 & N3);
           try rewrite K by assumption; untouched
       end.
  - destruct (mkdir_parents_exist_ok fs out); auto.
  - now rewrite H1.
Qed.

End Writes.

(** X1.  Whatever its outcome, a run leaves every path as it was, except
    the output directory and its ancestors, which [mkdir] may create, and
    the three files [config.toml], [training_log.csv] and [model.pt] of
    the output directory: nothing else is created, changed or removed. *)
Theorem writes_confined (C : components) (a : args) (now : string)
  (fs : filesystem) (w : World C) (q : path) :
  let out := output_path a now in
  In q (prefixes out) \/ In q (outputs out) \/
  node_at (st_fs (snd (train a now (initial fs w)))) q = node_at fs q.
Proof.
  intros out. pose proof (train_after_mkdir a now fs w) as S.
  cbv zeta in S. unfold wp in S. fold out in S.
  destruct (in_dec path_eq_dec q (prefixes out)) as [|N1]; [now left|].
  destruct (in_dec path_eq_dec q (outputs out)) as [|N2]; [now right; left|].
  right; right.
  destruct (mkdir_parents_exist_ok fs out) as [e|fs1] eqn:E.
  - now rewrite S.
  - destruct S as [[_ ->]|[_ S]]; [reflexivity|].
    rewrite (S q N2). exact (mkdir_other fs out fs1 q E N1).
Qed.

(** ** What a run leaves behind *)

Lemma outputs_longer out q r :
  In q (outputs out) -> In r (prefixes out) -> q <> r.
Proof.
  intros Hq Hr ->. apply prefixes_length in Hr.
  unfold outputs, config_copy, training_log, model_pt in Hq. cbn in Hq.
  destruct Hq as [<-|[<-|[<-|[]]]]; rewrite length_joinpath in Hr; lia.
Qed.

Lemma mkdir_fold_covers l : forall fs q,
  In q l -> node_at (fold_left mkdir_missing l fs) q <> None.
Proof.
  induction l as [|p l IH]; intros fs q; cbn; [tauto|].
  intros [->|H]; [|now apply IH].
  rewrite (grows_kept q (grows_fold (mkdir_missing fs q) l)).
  - unfold mkdir_missing. destruct (node_at fs q) eqn:E; [congruence|].
    rewrite node_at_fs_set_same; [discriminate|]. intros ->. discriminate.
  - unfold mkdir_missing. destruct (node_at fs q) eqn:E; [congruence|].
    rewrite node_at_fs_set_same; [discriminate|]. intros ->. discriminate.
Qed.

(** [mkdir] on a path that is not there makes it and all its ancestors
    directories. *)
Lemma mkdir_creates fs p fs1 q :
  node_at fs p = None ->
  mkdir_parents_exist_ok fs p = inr fs1 ->
  In q (prefixes p) -> node_at fs1 q = Some Dir.
Proof.
  intros Hn H Hq. assert (H' := H). apply mkdir_returns in H' as [G _].
  unfold mkdir_parents_exist_ok in H.
  destruct (blocked fs p) eqn:B; [discriminate|]. rewrite Hn in H.
  injection H as <-.
  assert (F : is_file (node_at fs q) = false).
  { assert (P : p <> []) by (intros ->; discriminate).
    rewrite (prefixes_parent P) in Hq. apply in_app_or in Hq as [Hq|[<-|[]]].
    - unfold blocked in B. destruct (is_file (node_at fs q)) eqn:E; [|reflexivity].
      assert (X : existsb (fun r => is_file (node_at fs r)) (prefixes (parent p)) = true)
        by (apply existsb_exists; eauto).
      congruence.
    - now rewrite Hn. }
  pose proof (mkdir_fold_covers (prefixes p) fs q Hq) as Hc.
  rewrite <- (grows_is_file q G) in F.
  destruct (node_at (fold_left mkdir_missing (prefixes p) fs) q) as [[|c]|];
    [reflexivity|discriminate|contradiction].
Qed.

Section Leftovers.

Context {C : components}.

Lemma bind_returned {A B} (m : M A) (k : A -> M B) (s : @state C) a s1 :
  m s = (Returned a, s1) -> bind m k s = k a s1.
Proof. unfold bind. now intros ->. Qed.

Lemma bind_raised {A B} (m : M A) (k : A -> M B) (s : @state C) e s1 :
  m s = (Raised e, s1) -> bind m k s = (Raised e, s1).
Proof. unfold bind. now intros ->. Qed.

(** The state of a run whose guard did not fire and whose [mkdir]
    succeeded: the output directory is there at the end. *)
Lemma train_leaves_directory a now fs (w : World C) :
  let out := output_path a now in
  guard fs a now = false ->
  blocked fs out = false ->
  is_file (node_at fs out) = false ->
  ready (st_fs (snd (train a now (initial fs w)))) out.
Proof.
  intros out Hg Hb Hf. pose proof (train_after_mkdir a now fs w) as S.
  cbv zeta in S. unfold wp in S. fold out in S.
  destruct (mkdir_parents_exist_ok fs out) as [e|fs1] eqn:E.
  - apply mkdir_raises in E as [[_ E]|(_ & _ & E)]; congruence.
  - destruct S as [[S _]|[_ S]]; [congruence|].
    apply mkdir_returns in E as [_ [B D]]. split.
    + rewrite <- B. unfold blocked. apply existsb_ext_in. intros r Hr.
      rewrite S; [reflexivity|]. intros Ho.
      destruct out as [|c o]; [contradiction|].
      assert (L : (List.length (parent (c :: o)) < List.length (c :: o))%nat)
        by (apply parent_length; discriminate).
      apply prefixes_length in Hr.
      unfold outputs, config_copy, training_log, model_pt in Ho. cbn [In] in Ho.
      destruct Ho as [<-|[<-|[<-|[]]]]; rewrite length_joinpath in Hr; lia.
    + rewrite S; [exact D|]. intros Ho.
      unfold outputs, config_copy, training_log, model_pt in Ho. cbn [In] in Ho.
      destruct Ho as [Ho|[Ho|[Ho|[]]]];
        apply (f_equal (@List.length _)) in Ho;
        rewrite length_joinpath in Ho; lia.
Qed.

End Leftovers.

(** X2.  A run whose guard did not fire and whose [mkdir] succeeded,
    whether it then returned or failed, leaves the output directory
    behind: the same command again, without [--force], is refused with
    [FileExistsError] before it does anything. *)
Theorem rerun_refused (C C' : components) (a : args) (now : string)
  (fs : filesystem) (w : World C) (a' : args) (now' : string) (w' : World C') :
  let out := output_path a now in
  let fs' := st_fs (snd (train a now (initial fs w))) in
  guard fs a now = false ->
  blocked fs out = false ->
  is_file (node_at fs out) = false ->
  output_path a' now' = out ->
  force a' = false ->
  train a' now' (initial fs' w') = (Raised FileExistsError, initial fs' w').
Proof.
  intros out fs' Hg Hb Hf Ho Hforce.
  destruct (train_leaves_directory a now fs w Hg Hb Hf) as [B D].
  fold out fs' in B, D.
  assert (E : path_exists fs' out = true)
    by (unfold path_exists; now rewrite B, D).
  pose proof (train_guard a' now' fs' w') as S.
  cbv zeta in S. unfold wp, guard in S. rewrite Ho, E, Hforce in S.
  destruct (train a' now' (initial fs' w')) as [o s2]. cbn [fst snd] in S.
  destruct S as (S1 & _ & S3 & _).
  rewrite (S3 eq_refl). f_equal. apply S1. auto.
Qed.

Lemma rerun_refused_witness :
  let fs := demo_fs [x00; x00] in
  let tape := [float_two; float_one; float_one; float_two] in
  let fs' := st_fs (snd (train (C:=demo) (demo_args false) "now"
                           (initial (C:=demo) fs tape))) in
  train (C:=demo) (demo_args false) "later" (initial (C:=demo) fs' tape) =
  (Raised FileExistsError, initial (C:=demo) fs' tape).
Proof.
  intros fs tape.
  refine (rerun_refused demo demo (demo_args false) "now" fs tape
            (demo_args false) "later" tape _ _ _ _ _); reflexivity.
Defined.

(** X3.  When the output path is not there and can be resolved, a run,
    whatever its outcome, leaves the output directory and every
    ancestor of it as directories ([parents=True]). *)
Theorem output_directory_created (C : components) (a : args) (now : string)
  (fs : filesystem) (w : World C) (q : path) :
  let out := output_path a now in
  blocked fs out = false ->
  node_at fs out = None ->
  In q (prefixes out) ->
  node_at (st_fs (snd (train a now (initial fs w)))) q = Some Dir.
Proof.
  intros out Hb Hn Hq. pose proof (train_after_mkdir a now fs w) as S.
  cbv zeta in S. unfold wp in S. fold out in S.
  assert (Hg : guard fs a now = false).
  { unfold guard, path_exists. fold out. now rewrite Hn, andb_false_r. }
  destruct (mkdir_parents_exist_ok fs out) as [e|fs1] eqn:E.
  - apply mkdir_raises in E as [[_ E]|(_ & _ & E)]; [congruence|].
    rewrite Hn in E. discriminate.
  - destruct S as [[S _]|[_ S]]; [congruence|].
    rewrite S; [exact (mkdir_creates fs out fs1 q Hn E Hq)|].
    intros Ho. exact (outputs_longer out q q Ho Hq eq_refl).
Qed.

Lemma output_directory_created_witness :
  node_at
    (st_fs (snd (train (C:=demo) demo_args_nested "now"
                   (initial (C:=demo) (demo_fs [x00])
                      [float_two; float_one]))))
    ["runs"] = Some Dir.
Proof.
  refine (output_directory_created demo demo_args_nested "now" (demo_fs [x00])
            [float_two; float_one] ["runs"] _ _ _);
    [reflexivity | reflexivity | now left].
Defined.

(** ** Configuration files the script cannot use *)

Lemma read_file_exists fs p raw :
  read_file fs p = inr raw -> path_exists fs p = true.
Proof.
  unfold read_file, path_exists. destruct (blocked fs p); [discriminate|].
  destruct (node_at fs p) as [[|c]|]; try discriminate. reflexivity.
Qed.

Section Unusable.

Context {C : components}.

Variables (a : args) (now : string) (fs : filesystem) (w : World C).

Let out := output_path a now.

Hypothesis passes : guard fs a now = false.
Hypothesis resolves : blocked fs out = false.
Hypothesis no_file : is_file (node_at fs out) = false.

Lemma mkdir_succeeds : exists fs1, mkdir_parents_exist_ok fs out = inr fs1.
Proof.
  destruct (mkdir_parents_exist_ok fs out) as [e|fs1] eqn:E; [|eauto].
  apply mkdir_raises in E as [[_ E]|(_ & _ & E)]; congruence.
Qed.

Ltac run_on :=
  erewrite bind_returned;
  [|first [ reflexivity
          | unfold fs_read, fs_write, lift, ret;
            cbn [st_fs st_world st_trace initial];
            repeat match goal with
                   | H : _ = inr _ |- _ => rewrite H
                   | H : _ = Some _ |- _ => rewrite H
                   end;
            reflexivity ]];
  cbv beta; cbn [st_fs st_world st_trace initial app].

Ltac run_off :=
  erewrite bind_raised;
  [reflexivity
  |unfold fs_read, fs_write, lift, raise;
   cbn [st_fs st_world st_trace initial];
   repeat match goal with
          | H : _ = inl _ |- _ => rewrite H
          | H : _ = inr _ |- _ => rewrite H
          | H : _ = None |- _ => rewrite H
          end;
   reflexivity].

(** X4.  When the guard does not fire, [mkdir] can make the output
    directory and the configuration file is not there, the run ends with
    [FileNotFoundError] after [mkdir]: it has made the output directory
    and nothing else, and has built nothing. *)
Theorem missing_config_file :
  blocked fs (config a) = false ->
  node_at fs (config a) = None ->
  ~ In (config a) (prefixes out) ->
  exists fs1,
    mkdir_parents_exist_ok fs out = inr fs1 /\
    train a now (initial fs w) =
    (Raised FileNotFoundError,
     {| st_fs := fs1; st_world := w;
        st_trace := [ev_mkdir out; ev_load_config (config a)] |}).
Proof.
  intros Hb Hn Hp. destruct mkdir_succeeds as [fs1 E].
  exists fs1. split; [exact E|].
  assert (R : read_file fs1 (config a) = inl FileNotFoundError).
  { unfold read_file.
    rewrite (grows_blocked (config a) (proj1 (mkdir_returns fs out E))), Hb.
    now rewrite (mkdir_other fs out fs1 (config a) E Hp), Hn. }
  unfold guard in passes. fold out in passes.
  unfold train. erewrite bind_raised; [reflexivity|].
  unfold setup. cbv zeta. fold out.
  run_on. rewrite passes. run_on. run_on. run_on. run_on. run_off.
Qed.


(** X6.  When the configuration argument names [config.toml] of the
    output directory itself (the file an earlier run left there), the
    run ends with [SameFileError] at [shutil.copyfile]: the file is
    intact and nothing has been built. *)
Theorem config_in_output_directory (raw : list byte) (cfg : toml) :
  config a = config_copy out ->
  read_file fs (config a) = inr raw ->
  tomllib_load C raw = Some cfg ->
  exists fs1,
    mkdir_parents_exist_ok fs out = inr fs1 /\
    read_file fs1 (config a) = inr raw /\
    train a now (initial fs w) =
    (Raised SameFileError,
     {| st_fs := fs1; st_world := w;
        st_trace := [ev_mkdir out; ev_load_config (config a);
                     ev_copyfile (config a) (config_copy out)] |}).
Proof.
  intros Hc Hr Hl. destruct mkdir_succeeds as [fs1 E].
  exists fs1. split; [exact E|].
  assert (R : read_file fs1 (config a) = inr raw)
    by exact (grows_read_file_kept (config a)
                (proj1 (mkdir_returns fs out E)) Hr).
  split; [exact R|].
  assert (K : copyfile fs1 (config a) (config_copy out) = inl SameFileError).
  { unfold copyfile. rewrite <- Hc, path_eqb_refl.
    now rewrite (read_file_exists fs1 (config a) raw R). }
  unfold guard in passes. fold out in passes.
  unfold train. erewrite bind_raised; [reflexivity|].
  unfold setup. cbv zeta. fold out.
  run_on. rewrite passes. run_on. run_on. run_on. run_on. run_on. run_on.
  run_on. run_off.
Qed.

End Unusable.

Lemma missing_config_file_witness :
  let a := demo_args false in
  exists fs1,
    mkdir_parents_exist_ok empty_fs (output_path a "now") = inr fs1 /\
    train (C:=demo) a "now" (initial (C:=demo) empty_fs []) =
    (Raised FileNotFoundError,
     @Build_state demo fs1 []
       [ev_mkdir (output_path a "now");
                     ev_load_config (config a)]).
Proof.
  intros a.
  refine (missing_config_file (C:=demo) a "now" empty_fs [] _ _ _ _ _ _);
    try reflexivity.
  cbn. intuition discriminate.
Defined.


Lemma config_in_output_directory_witness :
  let a := demo_args_rerun in
  let fs := demo_fs_rerun [x00] in
  exists fs1,
    mkdir_parents_exist_ok fs (output_path a "now") = inr fs1 /\
    read_file fs1 (config a) = inr [x00] /\
    train (C:=demo) a "now" (initial (C:=demo) fs []) =
    (Raised SameFileError,
     @Build_state demo fs1 []
       [ev_mkdir (output_path a "now");
                     ev_load_config (config a);
                     ev_copyfile (config a)
                       (config_copy (output_path a "now"))]).
Proof.
  intros a fs.
  refine (config_in_output_directory (C:=demo) a "now" fs [] _ _ _
            [x00] (demo_config 1) _ _ _);
    reflexivity.
Defined.

(** ** The checkpoints of a run *)

Lemma saved_losses_setup a out bs d m l op dev k last rest :
  saved_losses_from last (firstn k (setup_trace a out bs d m l op dev) ++ rest)
  = saved_losses_from last rest.
Proof.
  do 12 (destruct k as [|k]; [reflexivity|]). destruct k; reflexivity.
Qed.

Lemma decreasing_loop out results : forall b last,
  decreasing (b :: saved_losses_from last (loop_events out b results)) = true.
Proof.
  induction results as [|[i [t v]] rs IH]; intros b last; [reflexivity|].
  cbn [loop_events]. unfold epoch_events.
  destruct (float_lt v b) eqn:E; cbn [app saved_losses_from].
  - change (float_lt v b
            && decreasing (v :: saved_losses_from v (loop_events out v rs))
            = true).
    now rewrite E, IH.
  - apply IH.
Qed.

(** X7.  In every run, whatever its outcome, the validation losses at
    which [save] is called are strictly decreasing, and the first is
    strictly less than positive infinity: a checkpoint never replaces
    one of an epoch with a lower or equal validation loss. *)
Theorem checkpoints_improve (C : components) (a : args) (now : string)
  (fs : filesystem) (w : World C) :
  decreasing
    (float_inf
     :: saved_losses (st_trace (snd (train a now (initial fs w))))) = true.
Proof.
  destruct (train a now (initial fs w)) as [o s'] eqn:E. cbn [snd].
  apply train_as_upto in E as (o' & E & _).
  destruct (trace_shape None a now fs w E)
    as (k & bs & d & m & l & op & dev & results & -> & _).
  unfold saved_losses. rewrite saved_losses_setup. apply decreasing_loop.
Qed.


Section Model.

Context {C : components}.

Variable env : @run_env C.

Let out := env_output_dir env.


End Model.


(** ** The loaders *)




(** ** Runs that end before the loop *)

Lemma read_file_key fs p k : read_file fs p <> inl (KeyError k).
Proof.
  unfold read_file. destruct (blocked fs p); [discriminate|].
  destruct (node_at fs p) as [[|c]|]; discriminate.
Qed.

Lemma write_file_key fs p d k : write_file fs p d <> inl (KeyError k).
Proof.
  unfold write_file, open_for_writing. destruct (blocked fs p); [discriminate|].
  destruct (node_at fs (parent p)) as [[|c]|]; try discriminate.
  destruct (node_at fs p) as [[|c]|]; discriminate.
Qed.

Lemma copyfile_key fs src dst k : copyfile fs src dst <> inl (KeyError k).
Proof.
  unfold copyfile. destruct (_ && _); [discriminate|].
  destruct (read_file fs src) eqn:E; [|apply write_file_key].
  intros [= ->]. eapply read_file_key, E.
Qed.

Lemma mkdir_key fs p k : mkdir_parents_exist_ok fs p <> inl (KeyError k).
Proof.
  unfold mkdir_parents_exist_ok. destruct (blocked fs p); [discriminate|].
  destruct (node_at fs p) as [[|c]|]; discriminate.
Qed.

Lemma subscript_key v k k' : subscript v k = inl (KeyError k') -> k' = k.
Proof.
  destruct v; cbn; try discriminate.
  destruct (assoc k entries); [discriminate|now intros [= ->]].
Qed.

Section Early.

Context {C : components}.

Variables (a : args) (now : string) (fs : filesystem) (w : World C).

Let out := output_path a now.

(** When lines 34-61 raise, [training_log.csv] is as it was; a
    [KeyError] raised before anything is constructed comes after the
    three calls of lines 38-41 and names one of the keys of lines
    43-45. *)
Lemma setup_raised :
  wp (setup a now)
    (fun o s1 =>
       forall e, o = Raised e ->
         node_at (st_fs s1) (training_log out) = node_at fs (training_log out) /\
         forall k, e = KeyError k ->
           existsb constructs (st_trace s1) = false ->
           In k early_keys /\
           st_trace s1 = [ev_mkdir out; ev_load_config (config a);
                          ev_copyfile (config a) (config_copy out)])
    (initial fs w).
Proof.
  assert (N : training_log out <> config_copy out)
    by (apply joinpath_neq; discriminate).
  unfold setup. fold out.
  repeat wp_step.
  all: cbn [initial st_fs st_world st_trace] in *.
  all: intros e0 E0; try discriminate E0; injection E0 as <-.
  all: (split;
        [ untouched; unfold training_log;
          try (erewrite mkdir_child by eassumption); reflexivity
        | intros k Hk Hb; try discriminate Hk; try discriminate Hb; subst ]).
  all: try (exfalso;
            match goal with
            | H : read_file _ _ = inl _ |- _ => exact (read_file_key _ _ _ H)
            | H : write_file _ _ _ = inl _ |- _ => exact (write_file_key _ _ _ _ H)
            | H : copyfile _ _ _ = inl _ |- _ => exact (copyfile_key _ _ _ _ H)
            | H : mkdir_parents_exist_ok _ _ = inl _ |- _ => exact (mkdir_key _ _ _ H)
            | H : inr _ = inl _ |- _ => discriminate H
            | H : match tomllib_load _ _ with _ => _ end = inl _ |- _ =>
                destruct (tomllib_load _ _);
                [discriminate H
                |destruct (tomllib_failure _ _); discriminate H]
            end).
  all: match goal with
       | H : subscript _ _ = inl (KeyError _) |- _ =>
           apply subscript_key in H; subst; split; [cbn; tauto|reflexivity]
       end.
Qed.

(** X10.  Whatever the outcome of the run, [training_log.csv] follows
    the run: when lines 34-61 raised it is as it was before the run, and
    otherwise it holds the header followed by one row for every epoch
    of which both passes have returned, in order, also when the run
    then ends with an exception.  At most one training loss has no
    validation loss after it. *)
Theorem log_follows_run :
  let run := train a now (initial fs w) in
  let tr := st_trace (snd run) in
  let ts := training_losses tr in
  let vs := validation_losses tr in
  (List.length vs <= List.length ts <= S (List.length vs))%nat /\
  node_at (st_fs (snd run)) (training_log out) =
    if returned (fst (setup a now (initial fs w)))
    then Some (File (csv_row C header
                     ++ flat_map (csv_row C)
                          (rows (seq 0 (List.length vs)) ts vs)))
    else node_at fs (training_log out).
Proof.
  cbv zeta.
  pose proof (setup_spec a now fs w) as S. pose proof setup_raised as Sr.
  cbv zeta in S. unfold wp in S, Sr. fold out in S. unfold train, bind.
  destruct (setup a now (initial fs w)) as [[env|e] s1] eqn:Es;
    cbn [fst snd returned] in *.
  - clear Sr.
    destruct S as (_ & _ & k & bs & d & m & l & op & dev & Htr & _ & -> & Hout
                   & R & L & _).
    unfold epochs, bind, lift.
    destruct (as_index (env_num_epochs env)) as [e|n]; unfold raise, ret;
      cbn [fst snd].
    + unfold raise. cbn [fst snd]. rewrite Htr, L. cbn. rewrite app_nil_r.
      split; [lia|reflexivity].
    + rewrite <- Hout in R, L.
      pose proof (epoch_loop_spec env (range n) float_inf s1 R L) as S.
      unfold wp in S. rewrite Hout in S.
      destruct (epoch_loop env (range n) float_inf s1) as [o s']. cbn [fst snd] in *.
      destruct S as (results & Htr' & (rest & Hpre) & _ & _ & Hlog & _).
      assert (Hts : training_losses (st_trace s') =
                    map (fun r => fst (snd r)) results).
      { rewrite Htr', Htr. unfold training_losses. rewrite flat_map_app.
        apply training_losses_loop. }
      assert (Hvs : validation_losses (st_trace s') =
                    map (fun r => snd (snd r)) results).
      { rewrite Htr', Htr, validation_losses_app.
        apply validation_losses_loop. }
      assert (Hi : map fst results = seq 0 (List.length results)).
      { unfold range in Hpre. symmetry in Hpre. apply seq_prefix in Hpre.
        now rewrite length_map in Hpre. }
      rewrite Hts, Hvs, !length_map. split; [lia|].
      rewrite Hlog. unfold rows. rewrite <- Hi, combine_columns.
      now rewrite flat_map_concat_map, flat_map_concat_map, map_map.
  - destruct (Sr e eq_refl) as [Hl _]. split; [|exact Hl].
    destruct S as (_ & _ & k & bs & d & m & l & op & dev & -> & _).
    unfold validation_losses.
    rewrite (training_losses_setup a out bs d m l op dev k).
    rewrite (tests_setup a out bs d m l op dev k). cbn. lia.
Qed.

(** X11.  A run that ends with [KeyError] before any dataset, model or
    training object is constructed has made the three calls of lines
    38-41 ([mkdir], the load and the copy of the configuration) and no
    other, and the key is one of those the script looks up in lines
    43-45: [training], [batch_size], [num_epochs], [data];
    [training_log.csv] is as it was before the run. *)
Theorem required_keys (k : string) :
  let run := train a now (initial fs w) in
  fst run = Raised (KeyError k) ->
  existsb constructs (st_trace (snd run)) = false ->
  In k ["training"; "batch_size"; "num_epochs"; "data"] /\
  st_trace (snd run) =
    [ev_mkdir out; ev_load_config (config a);
     ev_copyfile (config a) (config_copy out)] /\
  node_at (st_fs (snd run)) (training_log out) = node_at fs (training_log out).
Proof.
  cbv zeta.
  pose proof (setup_spec a now fs w) as S. pose proof setup_raised as Sr.
  cbv zeta in S. unfold wp in S, Sr. fold out in S. unfold train, bind.
  destruct (setup a now (initial fs w)) as [[env|e] s1] eqn:Es;
    cbn [fst snd] in *.
  - clear Sr.
    destruct S as (_ & _ & k0 & bs & d & m & l & op & dev & Htr & _ & -> & Hout
                   & R & L & _).
    unfold epochs, bind, lift.
    destruct (as_index (env_num_epochs env)) as [e|n] eqn:Hn;
      unfold raise, ret; cbn [fst snd].
    + intros [= ->]. destruct (env_num_epochs env); discriminate.
    + rewrite <- Hout in R, L.
      pose proof (epoch_loop_spec env (range n) float_inf s1 R L) as S.
      unfold wp in S.
      destruct (epoch_loop env (range n) float_inf s1) as [o s']. cbn [fst snd] in *.
      destruct S as (results & _ & _ & _ & _ & _ & Ho). intros -> _.
      destruct Ho as [Ho _]. discriminate Ho.
  - intros [= ->] Hb. destruct (Sr _ eq_refl) as [Hl Hk].
    destruct (Hk k eq_refl Hb) as [Hin Htr]. auto.
Qed.

End Early.

(** ** A count of epochs that [range] refuses *)

Section NotCounted.

Context {C : components}.

Variables (a : args) (now : string) (fs : filesystem) (w : World C).
Variables (raw : list byte) (cfg bs d m l op v : toml).

Let out := output_path a now.

Hypothesis passes : guard fs a now = false.
Hypothesis resolves : blocked fs out = false.
Hypothesis no_file : is_file (node_at fs out) = false.
Hypothesis readable : configured C fs a raw cfg.
Hypothesis elsewhere : config a <> config_copy out.
Hypothesis copy_free : node_at fs (config_copy out) <> Some Dir.
Hypothesis log_free : node_at fs (training_log out) <> Some Dir.
Hypothesis complete : sections cfg bs d m l op v.
Hypothesis uncountable : as_index v = inl TypeError.

(** X12.  When [config["training"]["num_epochs"]] is not an integer
    (and not a boolean), on a file system and a configuration on which
    everything before the loop succeeds, the run ends with [TypeError]
    at [range(num_epochs)], that is only after the configuration was
    copied, every object built and the header written to
    [training_log.csv]: the calls made are exactly the twelve of lines
    38-61, and [model.pt] is as it was. *)
Theorem epoch_count_not_integer :
  exists dev s',
    train a now (initial fs w) = (Raised TypeError, s') /\
    st_trace s' = setup_trace a out bs d m l op dev /\
    node_at (st_fs s') (config_copy out) = Some (File raw) /\
    node_at (st_fs s') (training_log out) = Some (File (csv_row C header)) /\
    node_at (st_fs s') (model_pt out) = node_at fs (model_pt out).
Proof.
  destruct (@setup_returns C a now fs w raw cfg bs d m l op v passes resolves
              no_file readable elsewhere copy_free log_free complete)
    as (env & s1 & E).
  pose proof (setup_spec a now fs w) as S. cbv zeta in S. unfold wp in S.
  rewrite E in S. cbn [fst snd] in S. fold out in S.
  destruct S as (_ & Hmp & k & bs' & d' & m' & l' & op' & dev & Htr & Hcfg
                 & -> & Hout & R & L & raw' & cfg' & Hc & Hs).
  destruct Hcfg as (raw2 & cfg2 & Hc2 & Hcopy & _); [lia|].
  destruct readable as [R1 L1], Hc as [R2 L2], Hc2 as [R3 L3].
  assert (raw' = raw) by congruence. subst raw'.
  assert (raw2 = raw) by congruence. subst raw2.
  assert (cfg' = cfg) by congruence. subst cfg'.
  destruct complete as (t1 & S1 & S2 & S3 & S4 & S5 & S6 & S7).
  destruct Hs as (t2 & T1 & T2 & T3 & T4 & T5 & T6 & T7).
  assert (t2 = t1) by congruence. subst t2.
  assert (bs' = bs) by congruence. assert (d' = d) by congruence.
  assert (m' = m) by congruence. assert (l' = l) by congruence.
  assert (op' = op) by congruence. subst bs' d' m' l' op'.
  assert (Hv : env_num_epochs env = v) by congruence.
  exists dev, s1. split; [|auto].
  unfold train, bind. rewrite E. unfold epochs, bind, lift.
  rewrite Hv, uncountable. reflexivity.
Qed.

End NotCounted.

(** ** A negative count of epochs *)

(** X13.  A negative [config["training"]["num_epochs"]] is accepted: a
    run that returns has then called neither [train_one_epoch] nor
    [test_one_epoch], has not called [save], leaves in
    [training_log.csv] the header row only and [model.pt] as it was. *)
Theorem negative_epochs (C : components) (a : args) (now : string)
  (fs : filesystem) (w : World C) (b : float) (s' : state) (n : Z) :
  let out := output_path a now in
  train a now (initial fs w) = (Returned b, s') ->
  num_epochs_of C fs a n ->
  n < 0 ->
  node_at (st_fs s') (training_log out) = Some (File (csv_row C header)) /\
  loop_calls (st_trace s') = [] /\
  saved_epochs (st_trace s') = [] /\
  node_at (st_fs s') (model_pt out) = node_at fs (model_pt out).
Proof.
  intros out H Hz Hneg. apply train_returned in H as [env H]. run_spec H as S.
  destruct S as (_ & k & bs & d & m & l & op & dev & results & Htr & _ & _ & _
                 & -> & _ & _ & (n' & Hn & _ & Hi) & _ & _ & Hlog & Hmp).
  rewrite (num_epochs_of_fun Hn Hz) in Hi. cbn [bounded] in Hi.
  unfold range in Hi. replace (Z.to_nat n) with 0%nat in Hi by lia.
  apply map_eq_nil in Hi. subst results. cbn in *.
  rewrite app_nil_r in *. rewrite Htr. repeat split; auto.
Qed.

(** ** The two passes of an epoch *)

Lemma nth_error_middle {A} (l1 : list A) x l2 j :
  List.length l1 = j -> nth_error (l1 ++ x :: l2) j = Some x.
Proof. intros <-. induction l1; [reflexivity|assumption]. Qed.

(** X14.  In a run that returns, every epoch [j] goes from the state
    after [j] iterations to the state after [j + 1]: [train_one_epoch]
    runs on the training loader from the state the iterations before
    left, [test_one_epoch] runs on the validation loader from the state
    [train_one_epoch] left, with the same model, loss function and
    device, and the losses the two calls return are the [j]-th training
    and validation losses logged. *)
Theorem epoch_passes (C : components) (a : args) (now : string)
  (fs : filesystem) (w : World C) (b : float) (s' : state) :
  let ts := training_losses (st_trace s') in
  let vs := validation_losses (st_trace s') in
  train a now (initial fs w) = (Returned b, s') ->
  forall j, (j < List.length vs)%nat ->
    exists env b0 s0 bj sj w1 t v,
      train_upto (Some j) a now (initial fs w) = (Returned (env, b0), s0) /\
      train_upto (Some (S j)) a now (initial fs w) = (Returned (env, bj), sj) /\
      train_one_epoch C (env_train_dataloader env) (env_model env)
        (env_loss_fn env) (env_optimizer env) (env_device env) (st_world s0)
      = (t, w1) /\
      test_one_epoch C (env_validation_dataloader env) (env_model env)
        (env_loss_fn env) (env_device env) w1 = (v, st_world sj) /\
      nth_error ts j = Some t /\
      nth_error vs j = Some v.
Proof.
  intros ts vs H j Hj. subst ts vs.
  apply train_returned in H as [env H]. run_spec H as S.
  set (out := output_path a now) in *.
  destruct S as (_ & k & bs & d & m & l & op & dev & results & Htr & _ & _ & _
                 & -> & _ & _ & (n & _ & Ha & Hi) & _).
  cbn [bounded] in Hi.
  assert (Hlen : List.length results = Z.to_nat n).
  { rewrite <- (length_map fst), Hi. unfold range. apply length_seq. }
  assert (Hjn : (j < Z.to_nat n)%nat).
  { rewrite Htr, validation_losses_app, validation_losses_loop in Hj.
    unfold validation_losses in Hj at 1.
    rewrite (tests_setup a out bs d m l op dev 12) in Hj.
    cbn [map app] in Hj. rewrite length_map in Hj. lia. }
  destruct (@run_prefix C None (S j) a now fs w env b s' (bounded_none (S j)) H)
    as (bj & sj & n1 & rest & Ej & Hn1 & Htrj & _).
  fold out in Htrj.
  assert (n1 = n) by congruence. subst n1.
  destruct (train_upto_split (Some (S j)) j a now _
              (fun l => @bounded_some j (S j) l (Nat.le_succ_diag_r j)) Ej)
    as (b0 & s0 & n' & E0 & Hn' & Er).
  assert (n' = n) by congruence. subst n'.
  assert (Hone : skipn j (bounded (Some (S j)) (range n)) = [j]).
  { cbn [bounded]. unfold range. rewrite firstn_seq_prefix, skipn_seq.
    replace (Nat.min (S j) (Z.to_nat n) - j)%nat with 1%nat by lia.
    reflexivity. }
  rewrite Hone in Er. cbn [epoch_loop] in Er. unfold bind, ret in Er.
  destruct (epoch env j b0 s0) as [[b1|e] s1] eqn:Ee; [|discriminate].
  injection Er as -> ->.
  run_spec E0 as S. fold out in S.
  destruct S as (_ & k0 & bs0 & d0 & m0 & l0 & op0 & dev0 & done & Htr0 & _ & _
                 & _ & -> & Hout & _ & (n0 & _ & Ha0 & Hi0) & _ & R & L & _).
  assert (n0 = n) by congruence. subst n0.
  assert (Hdone : List.length done = j).
  { rewrite <- (length_map fst), Hi0. cbn [bounded]. unfold range.
    rewrite firstn_seq_prefix, length_seq. lia. }
  rewrite <- Hout in R, L.
  pose proof (epoch_spec env j b0 s0 R L) as S.
  unfold wp in S. rewrite Ee in S. cbn [fst snd] in S. rewrite Hout in S.
  destruct S as (t & w1 & v & Ht & Hv & Htr1 & _).
  exists env, b0, s0, bj, sj, w1, t, v.
  split; [exact E0|]. split; [exact Ej|]. split; [exact Ht|].
  split; [exact Hv|].
  rewrite Htrj, Htr1, Htr0. split.
  - unfold training_losses. rewrite !flat_map_app.
    fold (training_losses (firstn 12 (setup_trace a out bs0 d0 m0 l0 op0 dev0))).
    fold (training_losses (loop_events out float_inf done)).
    rewrite (training_losses_setup a out bs0 d0 m0 l0 op0 dev0 12).
    rewrite training_losses_loop. cbn [app flat_map].
    rewrite <- !app_assoc. cbn [app].
    apply nth_error_middle. now rewrite length_map.
  - rewrite !validation_losses_app, validation_losses_loop.
    unfold validation_losses at 1.
    rewrite (tests_setup a out bs0 d0 m0 l0 op0 dev0 12).
    cbn [map app]. unfold validation_losses at 1. cbn [app tests flat_map map].
    rewrite <- !app_assoc. cbn [app].
    apply nth_error_middle. now rewrite length_map.
Qed.

(** A run that ends with [RuntimeError] at the checkpoint of epoch 1:
    the log has the header and the rows of the epochs 0 and 1. *)
Lemma log_follows_run_witness :
  let fs := demo_fs_model_dir [x00; x00] in
  let tape := [float_two; float_nan; float_one; float_one] in
  let run := train (C:=demo) (demo_args true) "now"
               (initial (C:=demo) fs tape) in
  fst run = Raised RuntimeError /\
  node_at (st_fs (snd run)) ["out"; "training_log.csv"] =
    Some (File [x73; x73; x73; x0a; x69; x66; x6e; x0a; x69; x66; x66; x0a]).
Proof.
  intros fs tape run. split; [vm_compute; reflexivity|].
  exact (proj2 (log_follows_run (C:=demo) (demo_args true) "now" fs tape)).
Defined.

Lemma required_keys_witness :
  let C := with_parser demo (fun _ => Some demo_config_no_data) in
  let out := output_path (demo_args false) "now" in
  let run := train (C:=C) (demo_args false) "now"
               (initial (C:=C) (demo_fs []) []) in
  In "data" ["training"; "batch_size"; "num_epochs"; "data"] /\
  st_trace (snd run) =
    [ev_mkdir out; ev_load_config (config (demo_args false));
     ev_copyfile (config (demo_args false)) (config_copy out)] /\
  node_at (st_fs (snd run)) (training_log out)
  = node_at (demo_fs []) (training_log out).
Proof.
  intros C out.
  refine (required_keys (C:=C) (demo_args false) "now" (demo_fs []) [] "data"
            _ _).
  - vm_compute. reflexivity.
  - vm_compute. reflexivity.
Defined.

Lemma epoch_count_not_integer_witness :
  let C := with_parser demo (fun _ => Some demo_config_float) in
  let out := output_path (demo_args false) "now" in
  exists dev s',
    train (C:=C) (demo_args false) "now" (initial (C:=C) (demo_fs []) [])
    = (Raised TypeError, s') /\
    st_trace s' =
      setup_trace (demo_args false) out (TInt 32)
        (TTable [("features", TInt 3)]) (TTable []) (TStr "mse")
        (TTable [("name", TStr "adam")]) dev /\
    node_at (st_fs s') (config_copy out) = Some (File []) /\
    node_at (st_fs s') (training_log out) = Some (File (csv_row C header)) /\
    node_at (st_fs s') (model_pt out) = node_at (demo_fs []) (model_pt out).
Proof.
  intros C out.
  refine (epoch_count_not_integer (C:=C) (demo_args false) "now" (demo_fs [])
            [] [] demo_config_float (TInt 32) (TTable [("features", TInt 3)])
            (TTable []) (TStr "mse") (TTable [("name", TStr "adam")])
            (TFloat float_two) _ _ _ _ _ _ _ _ _).
  - reflexivity.
  - reflexivity.
  - reflexivity.
  - split; reflexivity.
  - discriminate.
  - discriminate.
  - discriminate.
  - eexists. repeat split.
  - reflexivity.
Defined.

Lemma negative_epochs_witness :
  let C := with_parser demo (fun _ => Some (demo_config (-3))) in
  let out := output_path (demo_args false) "now" in
  let s' := snd (train (C:=C) (demo_args false) "now"
                   (initial (C:=C) (demo_fs []) [float_two; float_one])) in
  node_at (st_fs s') (training_log out) = Some (File (csv_row C header)) /\
  loop_calls (st_trace s') = [] /\
  saved_epochs (st_trace s') = [] /\
  node_at (st_fs s') (model_pt out) = node_at (demo_fs []) (model_pt out).
Proof.
  intros C out s'.
  refine (negative_epochs C (demo_args false) "now" (demo_fs [])
            [float_two; float_one] float_inf s' (-3) _ _ _).
  - vm_compute. reflexivity.
  - exists [], (demo_config (-3)),
      (TTable [("batch_size", TInt 32); ("num_epochs", TInt (-3));
               ("loss", TStr "mse");
               ("optimizer", TTable [("name", TStr "adam")])]), (TInt (-3)).
    repeat split.
  - lia.
Defined.

Lemma epoch_passes_witness :
  let s' := snd (train (C:=demo) (demo_args false) "now"
                   (initial (C:=demo) (demo_fs [x00; x00])
                      [float_two; float_one; float_one; float_two])) in
  let ts := training_losses (st_trace s') in
  let vs := validation_losses (st_trace s') in
  exists env b0 s0 bj sj w1 t v,
    train_upto (Some 1%nat) (demo_args false) "now"
      (initial (C:=demo) (demo_fs [x00; x00])
         [float_two; float_one; float_one; float_two])
    = (Returned (env, b0), s0) /\
    train_upto (Some 2%nat) (demo_args false) "now"
      (initial (C:=demo) (demo_fs [x00; x00])
         [float_two; float_one; float_one; float_two])
    = (Returned (env, bj), sj) /\
    train_one_epoch demo (env_train_dataloader env) (env_model env)
      (env_loss_fn env) (env_optimizer env) (env_device env) (st_world s0)
    = (t, w1) /\
    test_one_epoch demo (env_validation_dataloader env) (env_model env)
      (env_loss_fn env) (env_device env) w1 = (v, st_world sj) /\
    nth_error ts 1 = Some t /\
    nth_error vs 1 = Some v.
Proof.
  intros s'.
  refine (epoch_passes demo (demo_args false) "now" (demo_fs [x00; x00])
            [float_two; float_one; float_one; float_two] float_one s' _
            1%nat _).
  - vm_compute. reflexivity.
  - vm_compute. lia.
Defined.

(** ** Runs with the default output directory *)

(** X15.  Two runs without [--output-dir] at different clock strings
    do not meet: the second leaves the output directory of the first
    and its [config.toml], [training_log.csv] and [model.pt] as they
    are. *)
Theorem default_directories_apart (C : components) (a a' : args)
  (now now' : string) (fs : filesystem) (w : World C) (q : path) :
  let out := output_path a now in
  output_dir a = None ->
  output_dir a' = None ->
  now <> now' ->
  q = out \/ In q (outputs out) ->
  node_at (st_fs (snd (train a' now' (initial fs w)))) q = node_at fs q.
Proof.
  intros out Ha Ha' Hnow Hq.
  pose proof (train_after_mkdir a' now' fs w) as S.
  cbv zeta in S. unfold wp in S.
  assert (Eo : out = [now]) by (unfold out, output_path; now rewrite Ha).
  assert (Eo' : output_path a' now' = [now'])
    by (unfold output_path; now rewrite Ha').
  rewrite Eo' in S. rewrite Eo in Hq. clear out Eo.
  assert (N1 : ~ In q (prefixes [now'])).
  { cbn. intros [<-|[]]. destruct Hq as [Hq|Hq]; [congruence|].
    cbn in Hq. destruct Hq as [Hq|[Hq|[Hq|[]]]]; discriminate Hq. }
  assert (N2 : ~ In q (outputs [now'])).
  { cbn. intros H. destruct Hq as [->|Hq].
    - destruct H as [H|[H|[H|[]]]]; discriminate H.
    - cbn in Hq.
      destruct Hq as [<-|[<-|[<-|[]]]]; destruct H as [H|[H|[H|[]]]];
        injection H; congruence. }
  destruct (mkdir_parents_exist_ok fs [now']) as [e|fs1] eqn:E.
  - now rewrite S.
  - destruct S as [[_ ->]|[_ S]]; [reflexivity|].
    rewrite (S q N2). exact (mkdir_other fs [now'] fs1 q E N1).
Qed.

Lemma default_directories_apart_witness :
  let fs1 := st_fs (snd (train (C:=demo) demo_args_default "t1"
                           (initial (C:=demo) (demo_fs [x00]) [float_one]))) in
  node_at
    (st_fs (snd (train (C:=demo) demo_args_default "t2"
                   (initial (C:=demo) fs1 [float_two]))))
    (model_pt (output_path demo_args_default "t1"))
  = node_at fs1 (model_pt (output_path demo_args_default "t1")).
Proof.
  intros fs1.
  refine (default_directories_apart demo demo_args_default demo_args_default
            "t1" "t2" fs1 [float_two] _ eq_refl eq_refl _ _).
  - discriminate.
  - right. right. right. left. reflexivity.
Defined.
